(** * StableClustering: stability selection of the number of clusters

    A shallow embedding of [imodels/clustering/stableclustering.py].

    The estimator is a mutable Python object; [fit] and [predict] are
    modelled as computations in a state-and-exception monad over that
    object.  The scikit-learn and numpy routines the class calls
    ([KMeans], [rand_score], [adjusted_rand_score], [np.mean],
    [check_is_fitted]) are collaborators: the clustering procedure and the
    two agreement metrics are parameters of the development (class
    [Sklearn]); every call to the clustering procedure is recorded in a
    call log so that "clustering work" is observable. *)

From Stdlib Require Import ZArith QArith List String Bool Lia Lqa Permutation.
Import ListNotations.
Local Open Scope Z_scope.

(** ** Python values used by the class *)

(** Exceptions that can leave [fit] or [predict]. *)
Inductive exn : Type :=
| ValueError (msg : string)
| AttributeError (msg : string)
| IndexError (msg : string)
| UnboundLocalError (name : string)
| NotFittedError.

Definition result (A : Type) : Type := (exn + A)%type.

(** The two [ValueError]s raised by [fit] (lines 39-40 and 51-52). *)
Definition InvalidAlgorithm : exn :=
  ValueError "Invalid algorithm: choose 'k-means'".
Definition InvalidMetric : exn :=
  ValueError "Invalid metric: choose 'rand' or 'adjusted_rand'".
(** What Python raises for [None.fit(X)] (line 65 with [best_model = None]). *)
Definition NoneHasNoFit : exn :=
  AttributeError "'NoneType' object has no attribute 'fit'".

(** Floating-point scores: a finite value or NaN.  Finite values are kept
    as exact rationals; no claim below depends on rounding. *)
Inductive pyfloat : Type :=
| Fin (q : Q)
| NaN.

(** [a > b] on floats: false as soon as one side is NaN. *)
Definition pygt (a b : pyfloat) : bool :=
  match a, b with
  | Fin x, Fin y => negb (Qle_bool x y)
  | _, _ => false
  end.

Definition pyadd (a b : pyfloat) : pyfloat :=
  match a, b with
  | Fin x, Fin y => Fin (x + y)
  | _, _ => NaN
  end.

Definition pysum (l : list pyfloat) : pyfloat := fold_left pyadd l (Fin 0).

(** [np.mean]: NaN on the empty list, the sum over the count otherwise. *)
Definition np_mean (l : list pyfloat) : pyfloat :=
  match l with
  | [] => NaN
  | _ :: _ =>
      match pysum l with
      | Fin s => Fin (s / inject_Z (Z.of_nat (List.length l)))
      | NaN => NaN
      end
  end.

(** [range(n)] and [range(a, b)]. *)
Definition range (n : Z) : list Z := map Z.of_nat (seq 0 (Z.to_nat n)).
Definition range2 (a b : Z) : list Z :=
  map (fun d => a + Z.of_nat d) (seq 0 (Z.to_nat (b - a))).

(** [l[i]] for a non-negative index. *)
Definition getitem {A : Type} (l : list A) (i : Z) : result A :=
  match nth_error l (Z.to_nat i) with
  | Some a => inr a
  | None => inl (IndexError "list index out of range")
  end.

(** ** The score table: a Python [dict] keyed by the candidate count

    Python dictionaries keep insertion order, and assigning to a key that
    is present replaces the value in place. *)
Definition pydict : Type := list (Z * pyfloat).

Fixpoint dict_set (k : Z) (v : pyfloat) (d : pydict) : pydict :=
  match d with
  | [] => [(k, v)]
  | (k', v') :: d' =>
      if k' =? k then (k', v) :: d' else (k', v') :: dict_set k v d'
  end.

Fixpoint dict_get (k : Z) (d : pydict) : option pyfloat :=
  match d with
  | [] => None
  | (k', v') :: d' => if k' =? k then Some v' else dict_get k d'
  end.

Definition dict_keys (d : pydict) : list Z := map fst d.

(** ** Collaborators *)

(** The scikit-learn routines [fit] is written against.  [kmeans_fit k
    seed X] is [KMeans(n_clusters=k, random_state=seed).fit(X)]: it fails
    with an exception or yields the fitted state of the model. *)
Class Sklearn : Type := {
  Dataset : Type;
  Fitted : Type;
  kmeans_fit : Z -> Z -> Dataset -> result Fitted;
  labels_ : Fitted -> list Z;
  kmeans_predict : Fitted -> Dataset -> result (list Z);
  rand_score : list Z -> list Z -> result pyfloat;
  adjusted_rand_score : list Z -> list Z -> result pyfloat
}.

(** Calls made to the clustering procedure. *)
Inductive event : Type :=
| CallFitPredict (n_clusters seed : Z)
| CallFit (n_clusters seed : Z).

Section Estimator.

Context {sk : Sklearn}.

(** A [KMeans] object: its two constructor parameters and, once fitted,
    its fitted state. *)
Record KMeans : Type := mkKMeans {
  n_clusters : Z;
  km_random_state : Z;
  km_fitted : option Fitted
}.

(** The estimator object.  [best_k_] and [best_model_] are attributes that
    exist only after [fit] assigned them ([None] = attribute absent);
    [best_k_] may hold Python's [None]. *)
Record StableClustering : Type := mkStableClustering {
  k_values : list Z;
  n_repetitions : Z;
  algorithm : string;
  metric : string;
  random_state : Z;
  scores_ : pydict;
  best_k_ : option (option Z);
  best_model_ : option KMeans
}.

(** [StableClustering.__init__] (lines 13-19). *)
Definition init (k_values : list Z) (n_repetitions : Z)
    (algorithm metric : string) (random_state : Z) : StableClustering :=
  {| k_values := k_values;
     n_repetitions := n_repetitions;
     algorithm := algorithm;
     metric := metric;
     random_state := random_state;
     scores_ := [];
     best_k_ := None;
     best_model_ := None |}.

(** ** The monad: the estimator object, the call log, exceptions *)

Record world : Type := mkWorld {
  self : StableClustering;
  calls : list event
}.

Definition M (A : Type) : Type := world -> world * result A.

Definition ret {A : Type} (a : A) : M A := fun w => (w, inr a).
Definition raise {A : Type} (e : exn) : M A := fun w => (w, inl e).
Definition bind {A B : Type} (m : M A) (f : A -> M B) : M B :=
  fun w =>
    match m w with
    | (w', inl e) => (w', inl e)
    | (w', inr a) => f a w'
    end.
Definition lift {A : Type} (r : result A) : M A := fun w => (w, r).
Definition get_self : M StableClustering := fun w => (w, inr (self w)).
Definition log (e : event) : M unit :=
  fun w => ({| self := self w; calls := calls w ++ [e] |}, inr tt).

Notation "x <- m ;; k" := (bind m (fun x => k))
  (at level 61, m at next level, right associativity).
Notation "' pat <- m ;; k" := (bind m (fun x => match x with pat => k end))
  (at level 61, pat pattern, m at next level, right associativity).
Notation "m ;;; k" := (bind m (fun _ => k))
  (at level 61, right associativity).

(** [for a in l: s = body(a, s)] with the loop-carried variables [s]. *)
Fixpoint for_ {A S : Type} (l : list A) (body : A -> S -> M S) (s : S)
  : M S :=
  match l with
  | [] => ret s
  | a :: l' => s' <- body a s ;; for_ l' body s'
  end.

(** [self.scores_[k] = v] *)
Definition set_score (k : Z) (v : pyfloat) : M unit :=
  fun w =>
    let s := self w in
    ({| self := {| k_values := k_values s;
                   n_repetitions := n_repetitions s;
                   algorithm := algorithm s;
                   metric := metric s;
                   random_state := random_state s;
                   scores_ := dict_set k v (scores_ s);
                   best_k_ := best_k_ s;
                   best_model_ := best_model_ s |};
        calls := calls w |}, inr tt).

(** [self.best_k_ = v] *)
Definition set_best_k_ (v : option Z) : M unit :=
  fun w =>
    let s := self w in
    ({| self := {| k_values := k_values s;
                   n_repetitions := n_repetitions s;
                   algorithm := algorithm s;
                   metric := metric s;
                   random_state := random_state s;
                   scores_ := scores_ s;
                   best_k_ := Some v;
                   best_model_ := best_model_ s |};
        calls := calls w |}, inr tt).

(** [self.best_model_ = m] *)
Definition set_best_model_ (m : KMeans) : M unit :=
  fun w =>
    let s := self w in
    ({| self := {| k_values := k_values s;
                   n_repetitions := n_repetitions s;
                   algorithm := algorithm s;
                   metric := metric s;
                   random_state := random_state s;
                   scores_ := scores_ s;
                   best_k_ := best_k_ s;
                   best_model_ := Some m |};
        calls := calls w |}, inr tt).

(** ** [KMeans] methods *)

(** [model.fit_predict(X)]: fits [model] in place, returns its labels. *)
Definition KMeans_fit_predict (model : KMeans) (X : Dataset)
  : M (KMeans * list Z) :=
  log (CallFitPredict (n_clusters model) (km_random_state model)) ;;;
  f <- lift (kmeans_fit (n_clusters model) (km_random_state model) X) ;;
  ret ({| n_clusters := n_clusters model;
          km_random_state := km_random_state model;
          km_fitted := Some f |}, labels_ f).

(** [model.fit(X)]: fits [model] in place and returns it. *)
Definition KMeans_fit (model : KMeans) (X : Dataset) : M KMeans :=
  log (CallFit (n_clusters model) (km_random_state model)) ;;;
  f <- lift (kmeans_fit (n_clusters model) (km_random_state model) X) ;;
  ret {| n_clusters := n_clusters model;
         km_random_state := km_random_state model;
         km_fitted := Some f |}.

(** [model.predict(X)] on a fitted model; scikit-learn raises
    [NotFittedError] on an unfitted one. *)
Definition KMeans_predict (model : KMeans) (X : Dataset) : result (list Z) :=
  match km_fitted model with
  | Some f => kmeans_predict f X
  | None => inl NotFittedError
  end.

(** ** [StableClustering.fit] (lines 21-66) *)

(** The local variables of [fit] that live across iterations of the outer
    loop.  [model] is unbound until the first repetition assigns it. *)
Record locals : Type := mkLocals {
  best_k : option Z;
  best_score : pyfloat;
  best_model : option KMeans;
  model : option KMeans
}.

(** Lines 29-41: one repetition; the loop carries [model] and
    [clusters]. *)
Definition repetition (X : Dataset) (k : Z) (i_rep : Z)
    (acc : option KMeans * list (list Z))
  : M (option KMeans * list (list Z)) :=
  let '(model, clusters) := acc in
  s <- get_self ;;
  if String.eqb (algorithm s) "k-means" then
    '(m, labels) <- KMeans_fit_predict
                      {| n_clusters := k;
                         km_random_state := random_state s + i_rep;
                         km_fitted := None |} X ;;
    ret (Some m, clusters ++ [labels])
  else raise InvalidAlgorithm.

(** Lines 27-41: the repetitions for one candidate [k]. *)
Definition repetitions (X : Dataset) (k : Z) (model0 : option KMeans)
  : M (option KMeans * list (list Z)) :=
  s <- get_self ;;
  for_ (range (n_repetitions s)) (repetition X k) (model0, []).

(** Lines 46-53: the score of one pair, appended to [scores]. *)
Definition pair_score (clusters : list (list Z)) (i j : Z)
    (scores : list pyfloat) : M (list pyfloat) :=
  s <- get_self ;;
  if String.eqb (metric s) "rand" then
    ci <- lift (getitem clusters i) ;;
    cj <- lift (getitem clusters j) ;;
    score <- lift (rand_score ci cj) ;;
    ret (scores ++ [score])
  else if String.eqb (metric s) "adjusted_rand" then
    ci <- lift (getitem clusters i) ;;
    cj <- lift (getitem clusters j) ;;
    score <- lift (adjusted_rand_score ci cj) ;;
    ret (scores ++ [score])
  else raise InvalidMetric.

(** Lines 45-53: the inner loop over [j] for one [i]. *)
Definition pairs_from (clusters : list (list Z)) (i : Z)
    (scores : list pyfloat) : M (list pyfloat) :=
  s <- get_self ;;
  for_ (range2 (i + 1) (n_repetitions s)) (pair_score clusters i) scores.

(** Lines 43-53: the scores of all pairs [i < j]. *)
Definition pairwise_scores (clusters : list (list Z)) : M (list pyfloat) :=
  s <- get_self ;;
  for_ (range (n_repetitions s)) (pairs_from clusters) [].

(** Lines 43-61: score the partitions of candidate [k], record the mean
    and track the running best. *)
Definition score_candidate (k : Z) (st : locals) (model : option KMeans)
    (clusters : list (list Z)) : M locals :=
  scores <- pairwise_scores clusters ;;
  let avg_score := np_mean scores in
  set_score k avg_score ;;;
  if pygt avg_score (best_score st) then
    match model with
    | Some m =>
        ret {| best_k := Some k; best_score := avg_score;
               best_model := Some m; model := model |}
    | None => raise (UnboundLocalError "model")
    end
  else
    ret {| best_k := best_k st; best_score := best_score st;
           best_model := best_model st; model := model |}.

(** Lines 27-61: the body of the loop over [k_values]. *)
Definition fit_candidate (X : Dataset) (k : Z) (st : locals) : M locals :=
  '(model, clusters) <- repetitions X k (model st) ;;
  score_candidate k st model clusters.

Definition fit (X : Dataset) : M unit :=
  s <- get_self ;;
  st <- for_ (k_values s) (fit_candidate X)
          {| best_k := None; best_score := Fin (-1);
             best_model := None; model := None |} ;;
  set_best_k_ (best_k st) ;;;
  match best_model st with
  | None => raise NoneHasNoFit
  | Some m =>
      m' <- KMeans_fit m X ;;
      set_best_model_ m'
  end.

(** ** [StableClustering.predict] (lines 68-71) *)

(** [hasattr(self, name)]: the instance attributes, the two methods of the
    class and the methods inherited from [BaseEstimator] and
    [ClusterMixin]. *)
Definition hasattr (s : StableClustering) (name : string) : bool :=
  if String.eqb name "k_values" then true
  else if String.eqb name "n_repetitions" then true
  else if String.eqb name "algorithm" then true
  else if String.eqb name "metric" then true
  else if String.eqb name "random_state" then true
  else if String.eqb name "scores_" then true
  else if String.eqb name "best_k_" then
    match best_k_ s with Some _ => true | None => false end
  else if String.eqb name "best_model_" then
    match best_model_ s with Some _ => true | None => false end
  else if String.eqb name "fit" then true
  else if String.eqb name "predict" then true
  else if String.eqb name "fit_predict" then true
  else if String.eqb name "get_params" then true
  else if String.eqb name "set_params" then true
  else false.

(** [sklearn.utils.validation.check_is_fitted(estimator, attributes)]:
    with a list of attribute names, all of them must exist on the
    estimator, otherwise [NotFittedError]. *)
Definition check_is_fitted (attributes : list string) : M unit :=
  s <- get_self ;;
  if forallb (hasattr s) attributes then ret tt else raise NotFittedError.

(** [predict] returns [None] when the algorithm is not "k-means". *)
Definition predict (X : Dataset) : M (option (list Z)) :=
  check_is_fitted ["best_model"%string] ;;;
  s <- get_self ;;
  if String.eqb (algorithm s) "k-means" then
    match best_model_ s with
    | None =>
        raise (AttributeError
          "'StableClustering' object has no attribute 'best_model_'")
    | Some m => labels <- lift (KMeans_predict m X) ;; ret (Some labels)
    end
  else ret None.

End Estimator.

(** ** The evaluation of one candidate, as the specification words it

    "Produce [n_repetitions] Partitions with seeds [random_state + i];
    compute the AgreementScore of every unordered pair; record the
    arithmetic mean."  These definitions follow that wording and are
    compared with the loops of [fit] below. *)

(** All unordered pairs of a sequence, each pair once. *)
Fixpoint unordered_pairs {A : Type} (l : list A) : list (A * A) :=
  match l with
  | [] => []
  | x :: t => map (pair x) t ++ unordered_pairs t
  end.

(** Apply a fallible function to every element, stopping at the first
    failure. *)
Fixpoint traverse {A B : Type} (f : A -> result B) (l : list A)
  : result (list B) :=
  match l with
  | [] => inr []
  | a :: t =>
      match f a with
      | inl e => inl e
      | inr b =>
          match traverse f t with
          | inl e => inl e
          | inr bs => inr (b :: bs)
          end
      end
  end.

(** The elements a [traverse] actually visits: everything up to and
    including the first failure. *)
Fixpoint attempted {A B : Type} (f : A -> result B) (l : list A) : list A :=
  match l with
  | [] => []
  | a :: t =>
      match f a with
      | inl _ => [a]
      | inr _ => a :: attempted f t
      end
  end.

(** The index pairs [(i, j)], [i < j < n], in the order the nested loops of
    [fit] visit them. *)
Definition index_pairs (n : Z) : list (Z * Z) :=
  flat_map (fun i => map (pair i) (range2 (i + 1) n)) (range n).

(** The same pairs over [nat], the first row split off the rest. *)
Definition nat_index_pairs (n : nat) : list (nat * nat) :=
  flat_map (fun i => map (pair i) (seq (S i) (n - S i))) (seq 0 n).

(** Keys of a dictionary after assigning to [k]; the keys of a dictionary
    filled from a sequence: its distinct elements, by first occurrence. *)
Definition add_key (ks : list Z) (k : Z) : list Z :=
  if existsb (Z.eqb k) ks then ks else ks ++ [k].

Fixpoint first_occurrences (l : list Z) : list Z :=
  match l with
  | [] => []
  | x :: t => x :: filter (fun y => negb (y =? x)) (first_occurrences t)
  end.

Section Specification.

Context {sk : Sklearn}.

(** Two estimator objects with the same constructor parameters. *)
Definition same_config (s1 s2 : StableClustering) : Prop :=
  k_values s1 = k_values s2 /\
  n_repetitions s1 = n_repetitions s2 /\
  algorithm s1 = algorithm s2 /\
  metric s1 = metric s2 /\
  random_state s1 = random_state s2.

(** The metric selected by a name, if the name is supported. *)
Definition selected_metric (name : string)
  : option (list Z -> list Z -> result pyfloat) :=
  if String.eqb name "rand" then Some rand_score
  else if String.eqb name "adjusted_rand" then Some adjusted_rand_score
  else None.

(** Repetition [i] at count [k]: the clustering procedure with seed
    [random_state + i]. *)
Definition repetition_fit (s : StableClustering) (X : Dataset) (k i : Z)
  : result Fitted :=
  kmeans_fit k (random_state s + i) X.

Definition repetition_labels (s : StableClustering) (X : Dataset) (k i : Z)
  : result (list Z) :=
  match repetition_fit s X k i with
  | inl e => inl e
  | inr f => inr (labels_ f)
  end.

(** The partitions of [X] at count [k], one per repetition
    [i = 0 .. n_repetitions - 1]. *)
Definition partitions (s : StableClustering) (X : Dataset) (k : Z)
  : result (list (list Z)) :=
  traverse (repetition_labels s X k) (range (n_repetitions s)).

(** The agreement scores of all unordered pairs of [parts] under the
    metric [score], and their mean. *)
Definition pair_agreements (score : list Z -> list Z -> result pyfloat)
    (parts : list (list Z)) : result (list pyfloat) :=
  traverse (fun p => score (fst p) (snd p)) (unordered_pairs parts).

Definition mean_agreement (score : list Z -> list Z -> result pyfloat)
    (parts : list (list Z)) : result pyfloat :=
  match pair_agreements score parts with
  | inl e => inl e
  | inr scores => inr (np_mean scores)
  end.

(** The score of the pair of partitions at indices [i] and [j], as the
    body of the pair loop computes it. *)
Definition indexed_agreement (s : StableClustering)
    (clusters : list (list Z)) (i j : Z) : result pyfloat :=
  match selected_metric (metric s) with
  | None => inl InvalidMetric
  | Some score =>
      match getitem clusters i with
      | inl e => inl e
      | inr ci =>
          match getitem clusters j with
          | inl e => inl e
          | inr cj => score ci cj
          end
      end
  end.

(** The mean agreement of the partitions [parts] under the metric the
    estimator names; the name is looked at only when there is a pair to
    score. *)
Definition partitions_score (s : StableClustering) (parts : list (list Z))
  : result pyfloat :=
  match selected_metric (metric s) with
  | Some score => mean_agreement score parts
  | None =>
      match unordered_pairs parts with
      | [] => inr (np_mean [])
      | _ :: _ => inl InvalidMetric
      end
  end.

(** What the evaluation of candidate [k] yields, with the failures of
    [fit]; the algorithm name is looked at only when there is a repetition
    to run. *)
Definition candidate_score (s : StableClustering) (X : Dataset) (k : Z)
  : result pyfloat :=
  if String.eqb (algorithm s) "k-means" || (n_repetitions s <=? 0) then
    match partitions s X k with
    | inl e => inl e
    | inr parts => partitions_score s parts
    end
  else inl InvalidAlgorithm.

(** The calls to the clustering procedure that evaluating candidate [k]
    makes. *)
Definition candidate_calls (s : StableClustering) (X : Dataset) (k : Z)
  : list event :=
  if String.eqb (algorithm s) "k-means" then
    map (fun i => CallFitPredict k (random_state s + i))
        (attempted (repetition_fit s X k) (range (n_repetitions s)))
  else [].

(** The calls of a candidate whose repetitions all ran. *)
Definition repetition_calls (s : StableClustering) (k : Z) : list event :=
  map (fun i => CallFitPredict k (random_state s + i))
      (range (n_repetitions s)).

(** The value of the local [model] after the repetitions of candidate
    [k]: the model of the last repetition, or the previous value when
    there is no repetition. *)
Definition candidate_model (s : StableClustering) (X : Dataset) (k : Z)
    (model0 : option KMeans) : option KMeans :=
  if 0 <? n_repetitions s then
    match repetition_fit s X k (n_repetitions s - 1) with
    | inr f =>
        Some {| n_clusters := k;
                km_random_state := random_state s + (n_repetitions s - 1);
                km_fitted := Some f |}
    | inl _ => None
    end
  else model0.

(** The world after some more calls to the clustering procedure. *)
Definition add_calls (w : world) (evs : list event) : world :=
  {| self := self w; calls := calls w ++ evs |}.

(** Lines 55-61 on the loop-carried locals, given the mean [a] and the
    current [model]. *)
Definition track_best (k : Z) (a : pyfloat) (m : option KMeans)
    (st : locals) : locals :=
  if pygt a (best_score st) then
    {| best_k := Some k; best_score := a; best_model := m; model := m |}
  else
    {| best_k := best_k st; best_score := best_score st;
       best_model := best_model st; model := m |}.

(** [x] is the agreement score of the pair of partitions [p] under the
    metric the estimator names. *)
Definition agreement (s : StableClustering) (p : list Z * list Z)
    (x : pyfloat) : Prop :=
  exists score,
    selected_metric (metric s) = Some score /\ score (fst p) (snd p) = inr x.


(** [est.k_values = ks] (equally [est.set_params(k_values=ks)], inherited
    from [BaseEstimator]): every other attribute is kept. *)
Definition set_k_values (ks : list Z) (s : StableClustering)
  : StableClustering :=
  {| k_values := ks;
     n_repetitions := n_repetitions s;
     algorithm := algorithm s;
     metric := metric s;
     random_state := random_state s;
     scores_ := scores_ s;
     best_k_ := best_k_ s;
     best_model_ := best_model_ s |}.

(** The loop over the candidates [ks] as a function of the constructor
    parameters: the assignments [scores_[k] = a] it makes, in order, the
    calls to the clustering procedure, and the locals it ends with or the
    exception that stops it. *)
Fixpoint candidates (s : StableClustering) (X : Dataset) (ks : list Z)
    (st : locals) : list (Z * pyfloat) * list event * result locals :=
  match ks with
  | [] => ([], [], inr st)
  | k :: ks' =>
      match candidate_score s X k with
      | inl e => ([], candidate_calls s X k, inl e)
      | inr a =>
          let '(rec, evs, r) :=
            candidates s X ks'
              (track_best k a (candidate_model s X k (model st)) st) in
          ((k, a) :: rec, candidate_calls s X k ++ evs, r)
      end
  end.

(** A dictionary after a sequence of assignments. *)
Definition record_all (rec : list (Z * pyfloat)) (d : pydict) : pydict :=
  fold_left (fun d p => dict_set (fst p) (snd p) d) rec d.

(** The world after the assignments [rec] to [scores_] and the calls
    [evs]. *)
Definition recorded (w : world) (rec : list (Z * pyfloat))
    (evs : list event) : world :=
  {| self := {| k_values := k_values (self w);
                n_repetitions := n_repetitions (self w);
                algorithm := algorithm (self w);
                metric := metric (self w);
                random_state := random_state (self w);
                scores_ := record_all rec (scores_ (self w));
                best_k_ := best_k_ (self w);
                best_model_ := best_model_ (self w) |};
     calls := calls w ++ evs |}.

(** The locals of [fit] before its loop (lines 22-24). *)
Definition locals0 : locals :=
  {| best_k := None; best_score := Fin (-1);
     best_model := None; model := None |}.

(** Lines 63-66 after the loop ended with the locals [st]. *)
Definition refit (X : Dataset) (st : locals) (w : world)
  : world * result unit :=
  let w1 := fst (set_best_k_ (best_k st) w) in
  match best_model st with
  | None => (w1, inl NoneHasNoFit)
  | Some m =>
      let w2 :=
        add_calls w1 [CallFit (n_clusters m) (km_random_state m)] in
      match kmeans_fit (n_clusters m) (km_random_state m) X with
      | inl e => (w2, inl e)
      | inr f =>
          (fst (set_best_model_
                  {| n_clusters := n_clusters m;
                     km_random_state := km_random_state m;
                     km_fitted := Some f |} w2), inr tt)
      end
  end.

End Specification.

(** ** A reference instance of the collaborators

    A small deterministic stand-in for scikit-learn, used to run the
    estimator on concrete inputs: datasets are lists of integers, the
    clustering of a point [x] at count [k] with seed [s] is
    [((s + 1) * x) mod k], and the two metrics are the Rand index and the
    adjusted Rand index computed from the pair counts. *)
Module Reference.

Record fitted : Type := mkFitted {
  ref_k : Z;
  ref_seed : Z;
  ref_labels : list Z
}.

Definition assign (k seed x : Z) : Z := ((seed + 1) * x) mod k.

Definition ref_fit (k seed : Z) (X : list Z) : result fitted :=
  if (k <? 1) || (Z.of_nat (List.length X) <? k) then
    inl (ValueError "n_samples should be >= n_clusters")
  else
    inr {| ref_k := k; ref_seed := seed;
           ref_labels := map (assign k seed) X |}.

Definition ref_predict (f : fitted) (X : list Z) : result (list Z) :=
  inr (map (assign (ref_k f) (ref_seed f)) X).

(** Pair counts of two labelings: pairs grouped together in both, apart
    in both, together only in the first, together only in the second. *)
Definition count_pairs (test : Z * Z -> Z * Z -> bool) (a b : list Z) : Z :=
  Z.of_nat (List.length
    (filter (fun p => test (fst p) (snd p))
       (unordered_pairs (combine a b)))).

Definition tp := count_pairs
  (fun p q => (fst p =? fst q) && (snd p =? snd q)).
Definition tn := count_pairs
  (fun p q => negb (fst p =? fst q) && negb (snd p =? snd q)).
Definition fn := count_pairs
  (fun p q => (fst p =? fst q) && negb (snd p =? snd q)).
Definition fp := count_pairs
  (fun p q => negb (fst p =? fst q) && (snd p =? snd q)).

Definition rand (a b : list Z) : result pyfloat :=
  if negb (Nat.eqb (List.length a) (List.length b)) then
    inl (ValueError "labels_true and labels_pred must have same size")
  else
    let num := tp a b + tn a b in
    let den := tp a b + tn a b + fn a b + fp a b in
    if (num =? den) || (den =? 0) then inr (Fin 1)
    else inr (Fin (Qred (inject_Z num / inject_Z den))).

Definition adjusted_rand (a b : list Z) : result pyfloat :=
  if negb (Nat.eqb (List.length a) (List.length b)) then
    inl (ValueError "labels_true and labels_pred must have same size")
  else if (fn a b =? 0) && (fp a b =? 0) then inr (Fin 1)
  else
    inr (Fin (Qred
      (inject_Z (2 * (tp a b * tn a b - fn a b * fp a b))
       / inject_Z ((tp a b + fn a b) * (fn a b + tn a b)
                   + (tp a b + fp a b) * (fp a b + tn a b))))).

#[export] Instance sklearn : Sklearn := {|
  Dataset := list Z;
  Fitted := fitted;
  kmeans_fit := ref_fit;
  labels_ := ref_labels;
  kmeans_predict := ref_predict;
  rand_score := rand;
  adjusted_rand_score := adjusted_rand
|}.

(** Six points on a line. *)
Definition X6 : list Z := [0; 1; 2; 3; 4; 5].

(** A freshly constructed estimator ([random_state] left at its default,
    42) and an empty call log. *)
Definition fresh (k_values : list Z) (n_repetitions : Z)
    (algorithm metric : string) : world :=
  {| self := init k_values n_repetitions algorithm metric 42;
     calls := [] |}.

(** The world after [est.fit(X)], whatever its outcome. *)
Definition after_fit (X : list Z) (w : world) : world := fst (fit X w).

(** The world after [est.k_values = ks]. *)
Definition with_k_values (ks : list Z) (w : world) : world :=
  {| self := set_k_values ks (self w); calls := calls w |}.

(** An estimator fitted once with the single candidate 1, then given the
    single candidate 2. *)
Definition refitted : world :=
  with_k_values [2] (after_fit X6 (fresh [1] 2 "k-means" "rand")).

End Reference.



(** A finite score between two bounds. *)
Definition within (lo hi : Q) (x : pyfloat) : Prop :=
  exists q, x = Fin q /\ (lo <= q <= hi)%Q.

(** * BART diagnostics: the mean number of leaves of a sample

    [n_leaves_functional] of
    [imodels/experimental/bartpy/diagnostics/motivation.py] (lines 59-63).
    A sample of the model is a sequence of trees, a tree has a sequence of
    leaf nodes; the other three arguments are not looked at. *)
Module Motivation.

(** What the division of line 63 yields. *)
Inductive quotient : Type :=
| Quotient (v : pyfloat)
| ZeroDivisionError.

Section Functional.

Variables SklearnModel Features Targets LeafNode : Type.

Record Tree : Type := mkTree {
  leaf_nodes : list LeafNode
}.

Record Model : Type := mkModel {
  trees : list Tree
}.

(** Lines 60-62: [n_leaves += len(tree.leaf_nodes)] over the trees. *)
Definition count_leaves (sample : Model) : Z :=
  fold_left (fun n_leaves tree =>
               n_leaves + Z.of_nat (List.length (leaf_nodes tree)))
            (trees sample) 0.

Definition n_leaves_functional (model : SklearnModel) (sample : Model)
    (X : Features) (y : Targets) : quotient :=
  let n_leaves := count_leaves sample in
  let n_trees := Z.of_nat (List.length (trees sample)) in
  if n_trees =? 0 then ZeroDivisionError
  else Quotient (Fin (inject_Z n_leaves / inject_Z n_trees)).

End Functional.

Arguments leaf_nodes {LeafNode} _.
Arguments trees {LeafNode} _.
Arguments mkTree {LeafNode} _.
Arguments mkModel {LeafNode} _.
Arguments count_leaves {LeafNode} _.
Arguments n_leaves_functional {SklearnModel Features Targets LeafNode} _ _ _ _.

End Motivation.

(** * Properties *)

(** ** Sequences, traversals and index pairs *)

Lemma traverse_app {A B : Type} (f : A -> result B) (l1 l2 : list A) :
  traverse f (l1 ++ l2) =
  match traverse f l1 with
  | inl e => inl e
  | inr b1 =>
      match traverse f l2 with
      | inl e => inl e
      | inr b2 => inr (b1 ++ b2)
      end
  end.
Proof.
  induction l1 as [|a l1 IH]; simpl.
  - destruct (traverse f l2); reflexivity.
  - destruct (f a); [reflexivity|].
    rewrite IH. destruct (traverse f l1); [reflexivity|].
    destruct (traverse f l2); reflexivity.
Qed.

Lemma traverse_length {A B : Type} (f : A -> result B) (l : list A) bs :
  traverse f l = inr bs -> List.length bs = List.length l.
Proof.
  revert bs. induction l as [|a l IH]; simpl; intros bs H.
  - inversion H. reflexivity.
  - destruct (f a); [discriminate|].
    destruct (traverse f l); [discriminate|].
    inversion H. simpl. f_equal. apply IH. reflexivity.
Qed.

Lemma traverse_ext {A B : Type} (f g : A -> result B) (l : list A) :
  (forall a, In a l -> f a = g a) -> traverse f l = traverse g l.
Proof.
  induction l as [|a l IH]; simpl; intros H; [reflexivity|].
  rewrite (H a (or_introl eq_refl)), IH; auto.
Qed.

Lemma traverse_map {A B C : Type} (f : B -> result C) (g : A -> B) l :
  traverse f (map g l) = traverse (fun a => f (g a)) l.
Proof.
  induction l as [|a l IH]; simpl; [reflexivity|].
  rewrite IH. reflexivity.
Qed.

Lemma traverse_total {A B : Type} (f : A -> B) (l : list A) :
  traverse (fun a => inr (f a)) l = inr (map f l).
Proof.
  induction l as [|a l IH]; simpl; [reflexivity|].
  rewrite IH. reflexivity.
Qed.

Lemma attempted_all {A B : Type} (f : A -> result B) (l : list A) bs :
  traverse f l = inr bs -> attempted f l = l.
Proof.
  revert bs. induction l as [|a l IH]; simpl; intros bs H; [reflexivity|].
  destruct (f a); [discriminate|].
  destruct (traverse f l) eqn:E; [discriminate|].
  f_equal. eapply IH. reflexivity.
Qed.

Lemma traverse_In {A B : Type} (f : A -> result B) (l : list A) bs a :
  traverse f l = inr bs -> In a l -> exists b, f a = inr b /\ In b bs.
Proof.
  revert bs. induction l as [|x l IH]; simpl; intros bs H Ha; [tauto|].
  destruct (f x) eqn:Ex; [discriminate|].
  destruct (traverse f l) eqn:E; [discriminate|].
  inversion H; subst. destruct Ha as [->|Ha].
  - exists b. split; [assumption | left; reflexivity].
  - destruct (IH _ eq_refl Ha) as [b' [? ?]]. exists b'. split; auto.
    right. assumption.
Qed.

Lemma outcome_eq {A B : Type} (p : A * B) (b : B) :
  snd p = b -> p = (fst p, b).
Proof. intros <-. destruct p. reflexivity. Qed.

Lemma range_nonpos n : n <= 0 -> range n = [].
Proof.
  intros H. unfold range. replace (Z.to_nat n) with 0%nat by lia. reflexivity.
Qed.

Lemma range_succ n : 0 <= n -> range (n + 1) = range n ++ [n].
Proof.
  intros H. unfold range.
  replace (Z.to_nat (n + 1)) with (Z.to_nat n + 1)%nat by lia.
  rewrite seq_app, map_app. simpl. f_equal. f_equal. lia.
Qed.

Lemma range_length n : List.length (range n) = Z.to_nat n.
Proof. unfold range. rewrite length_map, length_seq. reflexivity. Qed.

Lemma In_range n i : In i (range n) <-> 0 <= i < n.
Proof.
  unfold range. rewrite in_map_iff. split.
  - intros [x [<- Hx]]. apply in_seq in Hx. lia.
  - intros H. exists (Z.to_nat i). split; [lia|]. apply in_seq. lia.
Qed.

Lemma nth_error_seq_all {A : Type} (l : list A) :
  map (nth_error l) (seq 0 (List.length l)) = map Some l.
Proof.
  induction l as [|a l IH]; simpl; [reflexivity|].
  f_equal. rewrite <- seq_shift, map_map. simpl. exact IH.
Qed.

Lemma nat_index_pairs_succ n :
  nat_index_pairs (S n) =
  map (pair 0%nat) (seq 1 n) ++
  map (fun p => (S (fst p), S (snd p))) (nat_index_pairs n).
Proof.
  unfold nat_index_pairs. simpl. rewrite Nat.sub_0_r. f_equal.
  rewrite <- seq_shift, flat_map_concat_map, map_map.
  rewrite flat_map_concat_map, concat_map, map_map. f_equal.
  apply map_ext. intros i. simpl.
  rewrite map_map. simpl. rewrite <- seq_shift, map_map. reflexivity.
Qed.

Lemma index_pairs_nat n :
  index_pairs n =
  map (fun p => (Z.of_nat (fst p), Z.of_nat (snd p)))
      (nat_index_pairs (Z.to_nat n)).
Proof.
  unfold index_pairs, nat_index_pairs, range, range2.
  rewrite !flat_map_concat_map, concat_map, !map_map. f_equal.
  apply map_ext_in. intros i Hi. apply in_seq in Hi.
  rewrite !map_map. simpl.
  replace (Z.to_nat (n - (Z.of_nat i + 1))) with (Z.to_nat n - S i)%nat by lia.
  assert (E : forall a m, seq a m = map (fun d => (a + d)%nat) (seq 0 m)).
  { intros a m. induction m as [|m IHm]; [reflexivity|].
    rewrite !seq_S, map_app, IHm. reflexivity. }
  rewrite (E (S i)), !map_map. apply map_ext. intros d. f_equal. lia.
Qed.

(** The index loops enumerate exactly the unordered pairs of the list. *)
Lemma nat_index_pairs_unordered {A : Type} (l : list A) :
  map (fun p => (nth_error l (fst p), nth_error l (snd p)))
      (nat_index_pairs (List.length l)) =
  map (fun p => (Some (fst p), Some (snd p))) (unordered_pairs l).
Proof.
  induction l as [|a l IH]; [reflexivity|].
  cbn [List.length unordered_pairs]. rewrite nat_index_pairs_succ.
  rewrite !map_app, !map_map. f_equal.
  - cbn [fst snd nth_error]. rewrite <- seq_shift, map_map. cbn [nth_error].
    rewrite <- (map_map (nth_error l) (fun o => (Some a, o))).
    rewrite nth_error_seq_all, map_map. reflexivity.
  - cbn [fst snd nth_error]. exact IH.
Qed.


Lemma unordered_pairs_nil {A : Type} (l : list A) :
  unordered_pairs l = [] <-> (List.length l <= 1)%nat.
Proof.
  destruct l as [|a [|b l]]; simpl; split; intros H;
    try reflexivity; try lia; try discriminate.
Qed.

(** ** The loops of [fit], one at a time *)

Section Loops.

Context {sk : Sklearn}.

Lemma add_calls_nil w : add_calls w [] = w.
Proof. destruct w. unfold add_calls. simpl. rewrite app_nil_r. reflexivity. Qed.

Lemma add_calls_app w l1 l2 :
  add_calls (add_calls w l1) l2 = add_calls w (l1 ++ l2).
Proof. unfold add_calls. simpl. rewrite app_assoc. reflexivity. Qed.

(** The repetition loop with a supported algorithm: one call to the
    clustering procedure per index up to the first failure; [model] ends as
    the model of the last index. *)
Lemma repetition_loop (X : Dataset) (k : Z) :
  forall (idx : list Z) (w : world) m0 cl,
    String.eqb (algorithm (self w)) "k-means" = true ->
    for_ idx (repetition X k) (m0, cl) w =
    (add_calls w
       (map (fun i => CallFitPredict k (random_state (self w) + i))
            (attempted (repetition_fit (self w) X k) idx)),
     match traverse (repetition_fit (self w) X k) idx with
     | inl e => inl e
     | inr fs =>
         inr (match idx with
              | [] => m0
              | _ :: _ =>
                  match repetition_fit (self w) X k (last idx 0) with
                  | inr f =>
                      Some {| n_clusters := k;
                              km_random_state :=
                                random_state (self w) + last idx 0;
                              km_fitted := Some f |}
                  | inl _ => None
                  end
              end, cl ++ map labels_ fs)
     end).
Proof.
  induction idx as [|i idx IH]; intros w m0 cl Halg.
  - simpl. unfold ret. rewrite add_calls_nil, app_nil_r. reflexivity.
  - cbn [for_ attempted traverse]. unfold bind at 1.
    unfold repetition at 1. unfold bind, get_self at 1. rewrite Halg.
    unfold KMeans_fit_predict, bind, log, lift, ret. cbn [n_clusters km_random_state].
    fold (add_calls w [CallFitPredict k (random_state (self w) + i)]).
    change (kmeans_fit k (random_state (self w) + i) X)
      with (repetition_fit (self w) X k i).
    destruct (repetition_fit (self w) X k i) as [e|f] eqn:Ef.
    + reflexivity.
    + rewrite IH by exact Halg.
      unfold add_calls. cbn [self calls]. rewrite <- app_assoc. cbn [app map].
      f_equal.
      destruct (traverse (repetition_fit (self w) X k) idx) as [e|fs];
        [reflexivity|].
      cbn [map]. rewrite <- app_assoc. cbn [app].
      destruct idx as [|j idx].
      * cbn [last]. rewrite Ef. reflexivity.
      * reflexivity.
Qed.

(** The repetition loop with an unsupported algorithm raises at its first
    iteration, before any call. *)
Lemma repetition_loop_invalid (X : Dataset) (k : Z) idx w m0 cl :
  String.eqb (algorithm (self w)) "k-means" = false ->
  for_ idx (repetition X k) (m0, cl) w =
  (w, match idx with [] => inr (m0, cl) | _ :: _ => inl InvalidAlgorithm end).
Proof.
  intros Halg. destruct idx as [|i idx]; [reflexivity|].
  cbn [for_]. unfold bind at 1. unfold repetition, bind, get_self.
  rewrite Halg. reflexivity.
Qed.

(** The body of the pair loop leaves the world alone. *)
Lemma pair_score_eq clusters i j scores w :
  pair_score clusters i j scores w =
  (w, match indexed_agreement (self w) clusters i j with
      | inl e => inl e
      | inr x => inr (scores ++ [x])
      end).
Proof.
  unfold pair_score, indexed_agreement, selected_metric, bind, get_self, lift,
    ret, raise.
  destruct (String.eqb (metric (self w)) "rand").
  - destruct (getitem clusters i); [reflexivity|].
    destruct (getitem clusters j); [reflexivity|].
    destruct (rand_score l l0); reflexivity.
  - destruct (String.eqb (metric (self w)) "adjusted_rand"); [|reflexivity].
    destruct (getitem clusters i); [reflexivity|].
    destruct (getitem clusters j); [reflexivity|].
    destruct (adjusted_rand_score l l0); reflexivity.
Qed.

Lemma pair_loop clusters i :
  forall js scores w,
    for_ js (pair_score clusters i) scores w =
    (w, match traverse (indexed_agreement (self w) clusters i) js with
        | inl e => inl e
        | inr xs => inr (scores ++ xs)
        end).
Proof.
  induction js as [|j js IH]; intros scores w.
  - simpl. unfold ret. rewrite app_nil_r. reflexivity.
  - cbn [for_ traverse]. unfold bind. rewrite pair_score_eq.
    destruct (indexed_agreement (self w) clusters i j); [reflexivity|].
    rewrite IH.
    destruct (traverse (indexed_agreement (self w) clusters i) js);
      [reflexivity|].
    rewrite <- app_assoc. reflexivity.
Qed.

Lemma pairs_loop clusters :
  forall idx scores w,
    for_ idx (pairs_from clusters) scores w =
    (w, match traverse
                (fun p => indexed_agreement (self w) clusters (fst p) (snd p))
                (flat_map
                   (fun i => map (pair i)
                               (range2 (i + 1) (n_repetitions (self w))))
                   idx) with
        | inl e => inl e
        | inr xs => inr (scores ++ xs)
        end).
Proof.
  induction idx as [|i idx IH]; intros scores w.
  - simpl. unfold ret. rewrite app_nil_r. reflexivity.
  - cbn [for_ flat_map]. unfold bind at 1. unfold pairs_from at 1.
    unfold bind, get_self. rewrite pair_loop, traverse_app, traverse_map.
    cbn [fst snd].
    destruct (traverse (indexed_agreement (self w) clusters i)
                (range2 (i + 1) (n_repetitions (self w)))); [reflexivity|].
    rewrite IH.
    match goal with |- context [traverse ?f ?l] =>
      destruct (traverse f l); [reflexivity|] end.
    rewrite <- app_assoc. reflexivity.
Qed.

Lemma pairwise_scores_eq clusters w :
  pairwise_scores clusters w =
  (w, traverse (fun p => indexed_agreement (self w) clusters (fst p) (snd p))
        (index_pairs (n_repetitions (self w)))).
Proof.
  unfold pairwise_scores, bind, get_self. rewrite pairs_loop.
  unfold index_pairs.
  match goal with |- context [traverse ?f ?l] => destruct (traverse f l) end;
    reflexivity.
Qed.

(** With as many partitions as repetitions, the index loops compute the
    agreement of every unordered pair. *)
Lemma indexed_pairs_agreements s clusters score :
  List.length clusters = Z.to_nat (n_repetitions s) ->
  selected_metric (metric s) = Some score ->
  traverse (fun p => indexed_agreement s clusters (fst p) (snd p))
    (index_pairs (n_repetitions s)) =
  pair_agreements score clusters.
Proof.
  intros Hlen Hm. unfold pair_agreements.
  rewrite index_pairs_nat, traverse_map, <- Hlen. cbn [fst snd].
  pose (g := fun q : option (list Z) * option (list Z) =>
               match fst q, snd q with
               | Some a, Some b => score a b
               | _, _ => inl (IndexError "list index out of range")
               end).
  rewrite (traverse_ext _
             (fun p => g (nth_error clusters (fst p),
                          nth_error clusters (snd p)))).
  - rewrite <- (traverse_map g
                  (fun p => (nth_error clusters (fst p),
                             nth_error clusters (snd p)))).
    rewrite nat_index_pairs_unordered, traverse_map. reflexivity.
  - intros [i j] Hin. unfold indexed_agreement, getitem, g. rewrite Hm.
    cbn [fst snd]. rewrite !Nat2Z.id.
    apply (in_map (fun p => (nth_error clusters (fst p),
                             nth_error clusters (snd p)))) in Hin.
    rewrite nat_index_pairs_unordered in Hin. apply in_map_iff in Hin.
    destruct Hin as [[a b] [E _]]. cbn [fst snd] in E.
    injection E as E1 E2. rewrite <- E1, <- E2. reflexivity.
Qed.

Lemma indexed_pairs_invalid s clusters :
  List.length clusters = Z.to_nat (n_repetitions s) ->
  selected_metric (metric s) = None ->
  traverse (fun p => indexed_agreement s clusters (fst p) (snd p))
    (index_pairs (n_repetitions s)) =
  match unordered_pairs clusters with
  | [] => inr []
  | _ :: _ => inl InvalidMetric
  end.
Proof.
  intros Hlen Hm.
  assert (E : List.length (index_pairs (n_repetitions s)) =
              List.length (unordered_pairs clusters)).
  { rewrite index_pairs_nat, length_map, <- Hlen.
    rewrite <- (length_map (fun p => (nth_error clusters (fst p),
                                    nth_error clusters (snd p)))).
    rewrite nat_index_pairs_unordered, length_map. reflexivity. }
  destruct (index_pairs (n_repetitions s)) as [|p l];
    destruct (unordered_pairs clusters); try discriminate E; [reflexivity|].
  cbn [traverse]. unfold indexed_agreement at 1. rewrite Hm. reflexivity.
Qed.

End Loops.

(** ** One candidate *)

Section Candidate.

Context {sk : Sklearn}.

Lemma pygt_NaN b : pygt NaN b = false.
Proof. reflexivity. Qed.

Lemma set_score_eq k a w :
  set_score k a w = (fst (set_score k a w), inr tt).
Proof. reflexivity. Qed.

(** Lines 43-61 in closed form.  [model] is bound whenever there is a
    partition, so the comparison never reads an unbound [model]. *)
Lemma score_candidate_eq k st m clusters w :
  List.length clusters = Z.to_nat (n_repetitions (self w)) ->
  (m = None -> clusters = []) ->
  score_candidate k st m clusters w =
  match partitions_score (self w) clusters with
  | inl e => (w, inl e)
  | inr a => (fst (set_score k a w), inr (track_best k a m st))
  end.
Proof.
  intros Hlen Hm. unfold score_candidate, bind at 1.
  rewrite pairwise_scores_eq. unfold partitions_score, mean_agreement.
  destruct (selected_metric (metric (self w))) as [score|] eqn:Emet.
  - rewrite (indexed_pairs_agreements _ _ score Hlen Emet).
    destruct (pair_agreements score clusters) as [e|scores] eqn:Esc;
      [reflexivity|].
    unfold bind, track_best. cbn [set_score fst].
    destruct (pygt (np_mean scores) (best_score st)) eqn:Egt; [|reflexivity].
    destruct m as [m|]; [reflexivity|].
    rewrite (Hm eq_refl) in Esc. inversion Esc; subst.
    discriminate Egt.
  - rewrite (indexed_pairs_invalid _ _ Hlen Emet).
    destruct (unordered_pairs clusters); [|reflexivity].
    unfold bind, track_best. cbn [set_score fst np_mean].
    rewrite pygt_NaN. reflexivity.
Qed.

Lemma traverse_labels s X k idx :
  traverse (repetition_labels s X k) idx =
  match traverse (repetition_fit s X k) idx with
  | inl e => inl e
  | inr fs => inr (map labels_ fs)
  end.
Proof.
  induction idx as [|i idx IH]; [reflexivity|].
  cbn [traverse]. unfold repetition_labels at 1.
  destruct (repetition_fit s X k i); [reflexivity|].
  rewrite IH. destruct (traverse (repetition_fit s X k) idx); reflexivity.
Qed.

Lemma last_range n : 0 < n -> last (range n) 0 = n - 1.
Proof.
  intros H. replace n with ((n - 1) + 1) at 1 by lia.
  rewrite range_succ by lia. apply last_last.
Qed.

(** The body of the loop over [k_values] in closed form. *)
Lemma fit_candidate_eq X k st w :
  fit_candidate X k st w =
  match candidate_score (self w) X k with
  | inl e => (add_calls w (candidate_calls (self w) X k), inl e)
  | inr a =>
      (fst (set_score k a (add_calls w (candidate_calls (self w) X k))),
       inr (track_best k a (candidate_model (self w) X k (model st)) st))
  end.
Proof.
  unfold fit_candidate, bind at 1. unfold repetitions, bind, get_self.
  unfold candidate_score, candidate_calls, partitions.
  destruct (String.eqb (algorithm (self w)) "k-means") eqn:Halg.
  - rewrite repetition_loop by exact Halg. cbn [orb].
    rewrite traverse_labels.
    destruct (traverse (repetition_fit (self w) X k)
                (range (n_repetitions (self w)))) as [e|fs] eqn:Efit;
      [reflexivity|].
    cbn [app]. rewrite score_candidate_eq.
    + cbn [add_calls self].
      replace (candidate_model (self w) X k (model st))
        with (match range (n_repetitions (self w)) with
              | [] => model st
              | _ :: _ =>
                  match repetition_fit (self w) X k
                          (last (range (n_repetitions (self w))) 0) with
                  | inr f =>
                      Some {| n_clusters := k;
                              km_random_state :=
                                random_state (self w)
                                + last (range (n_repetitions (self w))) 0;
                              km_fitted := Some f |}
                  | inl _ => None
                  end
              end); [reflexivity|].
      unfold candidate_model.
      destruct (Z.ltb_spec 0 (n_repetitions (self w))) as [Hn|Hn].
      * rewrite last_range by exact Hn.
        destruct (range (n_repetitions (self w))) eqn:Er; [|reflexivity].
        apply (f_equal (@List.length Z)) in Er. rewrite range_length in Er.
        simpl in Er. lia.
      * rewrite range_nonpos by exact Hn. reflexivity.
    + cbn [add_calls self]. rewrite length_map.
      rewrite (traverse_length _ _ _ Efit). apply range_length.
    + destruct (range (n_repetitions (self w))) as [|i idx] eqn:Er.
      * intros _. inversion Efit. reflexivity.
      * destruct (traverse_In _ _ _ (last (i :: idx) 0) Efit) as [f [Ef _]].
        { rewrite <- Er. destruct (Z.ltb_spec 0 (n_repetitions (self w))).
          - rewrite last_range by assumption. apply In_range. lia.
          - rewrite range_nonpos in Er by assumption. discriminate Er. }
        rewrite Ef. discriminate.
  - rewrite repetition_loop_invalid by exact Halg. cbn [orb].
    rewrite add_calls_nil.
    destruct (Z.leb_spec (n_repetitions (self w)) 0) as [Hn|Hn].
    + rewrite range_nonpos by exact Hn. cbn [traverse].
      rewrite score_candidate_eq.
      * unfold candidate_model.
        destruct (Z.ltb_spec 0 (n_repetitions (self w))); [lia|].
        reflexivity.
      * simpl. lia.
      * reflexivity.
    + destruct (range (n_repetitions (self w))) eqn:Er; [|reflexivity].
      apply (f_equal (@List.length Z)) in Er. rewrite range_length in Er.
      simpl in Er. lia.
Qed.

End Candidate.

(** ** The loop over the candidates and [fit] in closed form *)

Section Fit.

Context {sk : Sklearn}.

Lemma same_config_refl s : same_config s s.
Proof. repeat split. Qed.

Lemma same_config_sym s1 s2 : same_config s1 s2 -> same_config s2 s1.
Proof. unfold same_config. intuition congruence. Qed.

Lemma candidate_score_config s1 s2 X k :
  same_config s1 s2 -> candidate_score s1 X k = candidate_score s2 X k.
Proof.
  intros (_ & Hn & Ha & Hm & Hr).
  unfold candidate_score, partitions, partitions_score, repetition_labels,
    repetition_fit.
  rewrite Hn, Ha, Hm, Hr. reflexivity.
Qed.

Lemma candidate_calls_config s1 s2 X k :
  same_config s1 s2 -> candidate_calls s1 X k = candidate_calls s2 X k.
Proof.
  intros (_ & Hn & Ha & Hm & Hr).
  unfold candidate_calls, repetition_fit.
  rewrite Hn, Ha, Hr. reflexivity.
Qed.

Lemma candidate_model_config s1 s2 X k m0 :
  same_config s1 s2 -> candidate_model s1 X k m0 = candidate_model s2 X k m0.
Proof.
  intros (_ & Hn & Ha & Hm & Hr).
  unfold candidate_model, repetition_fit.
  rewrite Hn, Hr. reflexivity.
Qed.

Lemma candidates_config s1 s2 X ks st :
  same_config s1 s2 -> candidates s1 X ks st = candidates s2 X ks st.
Proof.
  intros H. revert st. induction ks as [|k ks IH]; intros st; [reflexivity|].
  cbn [candidates].
  rewrite (candidate_score_config s1 s2), (candidate_calls_config s1 s2),
    (candidate_model_config s1 s2) by exact H.
  destruct (candidate_score s2 X k); [reflexivity|].
  rewrite IH. reflexivity.
Qed.

Lemma recorded_nil w evs : recorded w [] evs = add_calls w evs.
Proof. destruct w as [[] c]. reflexivity. Qed.

Lemma candidates_loop X :
  forall ks st w,
    for_ ks (fit_candidate X) st w =
    let '(rec, evs, r) := candidates (self w) X ks st in
    (recorded w rec evs, r).
Proof.
  induction ks as [|k ks IH]; intros st w.
  - cbn. rewrite recorded_nil, add_calls_nil. reflexivity.
  - cbn [for_ candidates]. unfold bind. rewrite fit_candidate_eq.
    destruct (candidate_score (self w) X k) as [e|a].
    + rewrite recorded_nil. reflexivity.
    + rewrite IH.
      rewrite (candidates_config
                 (self (fst (set_score k a
                    (add_calls w (candidate_calls (self w) X k)))))
                 (self w)) by (repeat split).
      destruct (candidates (self w) X ks
                  (track_best k a (candidate_model (self w) X k (model st))
                     st)) as [[rec evs] r].
      unfold recorded. cbn. rewrite <- app_assoc. reflexivity.
Qed.

(** [fit] in closed form. *)
Lemma fit_eq X w :
  fit X w =
  let '(rec, evs, r) := candidates (self w) X (k_values (self w)) locals0 in
  match r with
  | inl e => (recorded w rec evs, inl e)
  | inr st => refit X st (recorded w rec evs)
  end.
Proof.
  unfold fit, bind at 1. unfold get_self. unfold bind at 1.
  fold locals0. rewrite candidates_loop.
  destruct (candidates (self w) X (k_values (self w)) locals0)
    as [[rec evs] [e|st]]; [reflexivity|].
  unfold refit, bind at 1. cbn [set_best_k_ fst].
  destruct (best_model st) as [m|]; [|reflexivity].
  unfold KMeans_fit, bind, log, lift, ret.
  destruct (kmeans_fit (n_clusters m) (km_random_state m) X); reflexivity.
Qed.

End Fit.

(** ** Scores, dictionaries and the running best *)

Lemma pygt_irrefl a : pygt a a = false.
Proof.
  destruct a as [x|]; [|reflexivity]. simpl.
  apply negb_false_iff. apply Qle_bool_iff. apply Qle_refl.
Qed.

Lemma pygt_spec x y : pygt (Fin x) (Fin y) = true <-> (y < x)%Q.
Proof.
  simpl. rewrite negb_true_iff. split; intros H.
  - apply Qnot_le_lt. intros Hle. apply Qle_bool_iff in Hle. congruence.
  - destruct (Qle_bool x y) eqn:E; [|reflexivity].
    apply Qle_bool_iff in E. exfalso. exact (Qlt_not_le _ _ H E).
Qed.

Lemma pygt_trans a b c :
  pygt a b = true -> pygt b c = true -> pygt a c = true.
Proof.
  destruct a as [x|], b as [y|], c as [z|]; try discriminate.
  rewrite !pygt_spec. intros H1 H2. exact (Qlt_trans _ _ _ H2 H1).
Qed.

(** What does not exceed a bound lies strictly below whatever exceeds it,
    unless it is NaN. *)
Lemma pygt_below a b c :
  pygt b c = true -> pygt a c = false -> pygt b a = true \/ a = NaN.
Proof.
  destruct a as [x|]; [|right; reflexivity].
  destruct b as [y|], c as [z|]; try discriminate.
  intros H1 H2. left. apply pygt_spec. apply pygt_spec in H1.
  simpl in H2. apply negb_false_iff, Qle_bool_iff in H2.
  exact (Qle_lt_trans _ _ _ H2 H1).
Qed.

Lemma dict_get_set_same k v d : dict_get k (dict_set k v d) = Some v.
Proof.
  induction d as [|[k' v'] d IH]; simpl.
  - rewrite Z.eqb_refl. reflexivity.
  - destruct (k' =? k) eqn:E; simpl; rewrite E; [reflexivity | exact IH].
Qed.

Lemma dict_get_set_other k k' v d :
  k' <> k -> dict_get k' (dict_set k v d) = dict_get k' d.
Proof.
  intros Hne. induction d as [|[k0 v0] d IH]; simpl.
  - destruct (Z.eqb_spec k k'); [congruence | reflexivity].
  - destruct (Z.eqb_spec k0 k) as [->|Hk]; simpl.
    + destruct (Z.eqb_spec k k'); [congruence | reflexivity].
    + destruct (k0 =? k'); [reflexivity | exact IH].
Qed.

Lemma dict_set_same_value k v d : dict_get k d = Some v -> dict_set k v d = d.
Proof.
  induction d as [|[k' v'] d IH]; simpl; [discriminate|].
  destruct (k' =? k); intros H.
  - inversion H. reflexivity.
  - rewrite IH by exact H. reflexivity.
Qed.

Lemma dict_keys_set k v d :
  dict_keys (dict_set k v d) = add_key (dict_keys d) k.
Proof.
  unfold add_key, dict_keys.
  induction d as [|[k' v'] d IH]; simpl; [reflexivity|].
  rewrite (Z.eqb_sym k k'). destruct (k' =? k); simpl; [reflexivity|].
  rewrite IH. destruct (existsb (Z.eqb k) (map fst d)); reflexivity.
Qed.

Lemma dict_get_keys k d : In k (dict_keys d) <-> exists v, dict_get k d = Some v.
Proof.
  unfold dict_keys. induction d as [|[k' v'] d IH]; simpl.
  - split; [tauto | intros [v H]; discriminate].
  - destruct (Z.eqb_spec k' k) as [->|Hne].
    + split; [intros _; eauto | intros _; left; reflexivity].
    + rewrite <- IH. split; [intros [?|?]; [congruence | assumption] | tauto].
Qed.

Lemma record_all_notin k rec d :
  ~ In k (map fst rec) -> dict_get k (record_all rec d) = dict_get k d.
Proof.
  unfold record_all. revert d.
  induction rec as [|[k0 a0] rec IH]; intros d Hn; [reflexivity|].
  simpl in *. rewrite IH by tauto.
  apply dict_get_set_other. intros ->. tauto.
Qed.

Lemma record_all_in k a rec d :
  In k (map fst rec) ->
  (forall a', In (k, a') rec -> a' = a) ->
  dict_get k (record_all rec d) = Some a.
Proof.
  unfold record_all. revert d.
  induction rec as [|[k0 a0] rec IH]; intros d Hin Hfun; [destruct Hin|].
  cbn [fold_left fst snd].
  destruct (in_dec Z.eq_dec k (map fst rec)) as [Hk|Hk].
  - apply IH; [exact Hk|]. intros a' Ha'. apply Hfun. right. exact Ha'.
  - fold (record_all rec (dict_set k0 a0 d)).
    rewrite record_all_notin by exact Hk.
    destruct Hin as [E|Hin]; [|contradiction]. cbn [fst] in E. subst k0.
    rewrite (Hfun a0 (or_introl eq_refl)). apply dict_get_set_same.
Qed.

Lemma record_all_keys rec d :
  dict_keys (record_all rec d) = fold_left add_key (map fst rec) (dict_keys d).
Proof.
  unfold record_all. revert d.
  induction rec as [|[k a] rec IH]; intros d; [reflexivity|].
  cbn [fold_left map fst snd]. rewrite IH, dict_keys_set. reflexivity.
Qed.

(** Assignments whose values the dictionary already holds change
    nothing. *)
Lemma record_all_present rec d :
  (forall k a, In (k, a) rec -> dict_get k d = Some a) ->
  record_all rec d = d.
Proof.
  unfold record_all. induction rec as [|[k a] rec IH]; intros H;
    [reflexivity|].
  cbn [fold_left fst snd].
  rewrite dict_set_same_value by (apply H; left; reflexivity).
  apply IH. intros k' a' Hin. apply H. right. exact Hin.
Qed.

Lemma existsb_eqb_In k l : existsb (Z.eqb k) l = true <-> In k l.
Proof.
  rewrite existsb_exists. split.
  - intros [x [Hx E]]. apply Z.eqb_eq in E. subst. exact Hx.
  - intros H. exists k. split; [exact H | apply Z.eqb_refl].
Qed.

Lemma first_occurrences_In k l : In k (first_occurrences l) <-> In k l.
Proof.
  induction l as [|x l IH]; simpl; [tauto|].
  rewrite filter_In, IH, negb_true_iff, Z.eqb_neq.
  destruct (Z.eq_dec x k); intuition congruence.
Qed.

Lemma first_occurrences_NoDup l : NoDup (first_occurrences l).
Proof.
  induction l as [|x l IH]; simpl; constructor.
  - rewrite filter_In, negb_true_iff, Z.eqb_neq. tauto.
  - apply NoDup_filter. exact IH.
Qed.

Lemma first_occurrences_id l : NoDup l -> first_occurrences l = l.
Proof.
  induction l as [|x l IH]; intros H; [reflexivity|].
  inversion H as [|? ? Hx Hl]; subst. simpl. rewrite IH by exact Hl.
  f_equal. apply forallb_filter_id. apply forallb_forall.
  intros y Hy. apply negb_true_iff, Z.eqb_neq. intros ->. contradiction.
Qed.

Lemma filter_twice {A : Type} (f g : A -> bool) (l : list A) :
  filter f (filter g l) = filter (fun x => f x && g x) l.
Proof.
  induction l as [|x l IH]; simpl; [reflexivity|].
  destruct (g x); simpl.
  - rewrite andb_true_r. destruct (f x); rewrite IH; reflexivity.
  - rewrite andb_false_r. exact IH.
Qed.

(** Filling a dictionary from a sequence appends the new keys by first
    occurrence. *)
Lemma fold_add_key l :
  forall acc,
    fold_left add_key l acc =
    acc ++ filter (fun y => negb (existsb (Z.eqb y) acc)) (first_occurrences l).
Proof.
  induction l as [|x l IH]; intros acc.
  - simpl. rewrite app_nil_r. reflexivity.
  - cbn [fold_left first_occurrences filter]. rewrite IH. unfold add_key.
    destruct (existsb (Z.eqb x) acc) eqn:Ex; cbn [negb].
    + f_equal. rewrite filter_twice. apply filter_ext.
      intros y. destruct (existsb (Z.eqb y) acc) eqn:Ey; [reflexivity|].
      cbn [negb andb]. symmetry. apply negb_true_iff, Z.eqb_neq.
      intros ->. congruence.
    + rewrite <- app_assoc. cbn [app]. f_equal. f_equal.
      rewrite filter_twice. apply filter_ext.
      intros y. rewrite existsb_app. cbn [existsb]. rewrite orb_false_r.
      rewrite negb_orb. reflexivity.
Qed.

Lemma fold_add_key_nil l : fold_left add_key l [] = first_occurrences l.
Proof.
  rewrite fold_add_key. cbn [app existsb negb].
  apply forallb_filter_id. apply forallb_forall. reflexivity.
Qed.

(** ** What the loop over the candidates records and selects *)

Section Selection.

Context {sk : Sklearn}.

Lemma candidate_score_parts s X k a :
  candidate_score s X k = inr a ->
  exists parts,
    partitions s X k = inr parts /\
    List.length parts = Z.to_nat (n_repetitions s) /\
    partitions_score s parts = inr a.
Proof.
  unfold candidate_score. intros H.
  destruct (String.eqb (algorithm s) "k-means" || (n_repetitions s <=? 0));
    [|discriminate].
  destruct (partitions s X k) as [e|parts] eqn:Ep; [discriminate|].
  exists parts. repeat split; [|exact H].
  unfold partitions in Ep. rewrite (traverse_length _ _ _ Ep).
  apply range_length.
Qed.

(** Fewer than two repetitions leave no pair to score: the mean is NaN. *)
Lemma candidate_score_few s X k a :
  n_repetitions s < 2 -> candidate_score s X k = inr a -> a = NaN.
Proof.
  intros Hn H. destruct (candidate_score_parts _ _ _ _ H) as (parts & _ & Hl & Hs).
  assert (Hp : unordered_pairs parts = []) by (apply unordered_pairs_nil; lia).
  unfold partitions_score, mean_agreement, pair_agreements in Hs.
  rewrite Hp in Hs. cbn in Hs.
  destruct (selected_metric (metric s)); inversion Hs; reflexivity.
Qed.

Lemma candidate_calls_ok s X k a :
  candidate_score s X k = inr a ->
  candidate_calls s X k = repetition_calls s k.
Proof.
  unfold candidate_score, candidate_calls, repetition_calls. intros H.
  destruct (String.eqb (algorithm s) "k-means"); cbn [orb] in H.
  - unfold partitions in H. rewrite traverse_labels in H.
    destruct (traverse (repetition_fit s X k) (range (n_repetitions s)))
      as [e|fs] eqn:Ef; [discriminate|].
    rewrite (attempted_all _ _ _ Ef). reflexivity.
  - destruct (Z.leb_spec (n_repetitions s) 0); [|discriminate].
    rewrite range_nonpos by assumption. reflexivity.
Qed.

(** A candidate whose mean wins a comparison has a bound [model]: the
    model of its last repetition, fitted on [X]. *)
Lemma candidate_model_selected s X k a b :
  candidate_score s X k = inr a ->
  pygt a b = true ->
  exists f,
    kmeans_fit k (random_state s + (n_repetitions s - 1)) X = inr f /\
    forall m0,
      candidate_model s X k m0 =
      Some {| n_clusters := k;
              km_random_state := random_state s + (n_repetitions s - 1);
              km_fitted := Some f |}.
Proof.
  intros H Hgt.
  assert (Hn : 2 <= n_repetitions s).
  { destruct (Z.le_gt_cases 2 (n_repetitions s)) as [?|Hlt]; [assumption|].
    rewrite (candidate_score_few s X k a) in Hgt by (assumption || lia).
    discriminate Hgt. }
  destruct (candidate_score_parts _ _ _ _ H) as (parts & Hp & _ & _).
  unfold partitions in Hp. rewrite traverse_labels in Hp.
  destruct (traverse (repetition_fit s X k) (range (n_repetitions s)))
    as [e|fs] eqn:Ef; [discriminate|].
  destruct (traverse_In _ _ _ (n_repetitions s - 1) Ef) as [f [Hf _]];
    [apply In_range; lia|].
  exists f. split; [exact Hf|]. intros m0. unfold candidate_model.
  destruct (Z.ltb_spec 0 (n_repetitions s)); [|lia].
  rewrite Hf. reflexivity.
Qed.

(** The assignments are those of a prefix of the candidates, each with the
    candidate's score; when the loop completes, of all of them. *)
Lemma candidates_recorded s X :
  forall ks st rec evs r,
    candidates s X ks st = (rec, evs, r) ->
    (exists rest, ks = map fst rec ++ rest /\
                  (forall st', r = inr st' -> rest = [])) /\
    (forall k a, In (k, a) rec -> candidate_score s X k = inr a) /\
    (forall st', r = inr st' -> evs = flat_map (repetition_calls s) ks).
Proof.
  induction ks as [|k ks IH]; intros st rec evs r H; cbn [candidates] in H.
  - inversion H; subst. split; [|split].
    + exists []. split; [reflexivity | reflexivity].
    + intros k a [].
    + reflexivity.
  - destruct (candidate_score s X k) as [e|a] eqn:Ek.
    + inversion H; subst. split; [|split].
      * exists (k :: ks). split; [reflexivity | discriminate].
      * intros k' a' [].
      * discriminate.
    + destruct (candidates s X ks
                  (track_best k a (candidate_model s X k (model st)) st))
        as [[rec' evs'] r'] eqn:E.
      inversion H; subst.
      destruct (IH _ _ _ _ E) as ((rest & Hks & Hrest) & Hrec & Hevs).
      split; [|split].
      * exists rest. split; [|exact Hrest]. cbn [map fst app]. congruence.
      * intros k' a' [Heq|Hin]; [inversion Heq; subst; exact Ek|].
        apply Hrec. exact Hin.
      * intros st' Hr. cbn [flat_map].
        rewrite (Hevs st' Hr), (candidate_calls_ok _ _ _ _ Ek). reflexivity.
Qed.

(** The running best after the loop: no recorded mean exceeds it, and it
    is either the one the loop started with or that of a candidate that
    strictly exceeded everything before it. *)
Lemma candidates_best s X :
  forall ks st rec evs st',
    candidates s X ks st = (rec, evs, inr st') ->
    (forall k a, In (k, a) rec -> pygt a (best_score st') = false) /\
    ((best_k st' = best_k st /\ best_score st' = best_score st /\
      best_model st' = best_model st) \/
     (exists pre kb post f,
        ks = pre ++ kb :: post /\
        best_k st' = Some kb /\
        candidate_score s X kb = inr (best_score st') /\
        pygt (best_score st') (best_score st) = true /\
        kmeans_fit kb (random_state s + (n_repetitions s - 1)) X = inr f /\
        best_model st' =
          Some {| n_clusters := kb;
                  km_random_state := random_state s + (n_repetitions s - 1);
                  km_fitted := Some f |} /\
        (forall k a, In k pre -> candidate_score s X k = inr a ->
                     pygt (best_score st') a = true \/ a = NaN))).
Proof.
  induction ks as [|k ks IH]; intros st rec evs st' H; cbn [candidates] in H.
  - inversion H; subst. split; [intros k a []|]. left. repeat split.
  - destruct (candidate_score s X k) as [e|a] eqn:Ek; [discriminate|].
    set (st1 := track_best k a (candidate_model s X k (model st)) st) in *.
    destruct (candidates s X ks st1) as [[rec' evs'] r'] eqn:E.
    inversion H; subst. clear H.
    destruct (IH _ _ _ _ E) as (Hmax & Hsel).
    assert (Hk1 : pygt a (best_score st1) = false).
    { unfold st1, track_best.
      destruct (pygt a (best_score st)) eqn:Eg; cbn [best_score];
        [apply pygt_irrefl | exact Eg]. }
    assert (Hmono : best_score st' = best_score st1 \/
                    pygt (best_score st') (best_score st1) = true).
    { destruct Hsel as [(_ & Hs & _)|(? & ? & ? & ? & _ & _ & _ & Hg & _)];
        [left; exact Hs | right; exact Hg]. }
    assert (Hk' : pygt a (best_score st') = false).
    { destruct Hmono as [->|Hg]; [exact Hk1|].
      destruct (pygt a (best_score st')) eqn:Eg; [|reflexivity].
      rewrite (pygt_trans _ _ _ Eg Hg) in Hk1. discriminate Hk1. }
    split.
    + intros k' a' [Heq|Hin]; [inversion Heq; subst; exact Hk'|].
      exact (Hmax k' a' Hin).
    + destruct Hsel as [(Hbk & Hbs & Hbm)|
                        (pre & kb & post & f & Hks & Hbk & Hsc & Hg & Hf & Hbm & Hpre)].
      * unfold st1, track_best in Hbk, Hbs, Hbm.
        destruct (pygt a (best_score st)) eqn:Eg;
          cbn [best_k best_score best_model] in Hbk, Hbs, Hbm.
        -- right.
           destruct (candidate_model_selected _ _ _ _ _ Ek Eg) as (f & Hf & Hm).
           exists [], k, ks, f. rewrite Hbs.
           repeat split; try assumption.
           ++ rewrite Hbm. apply Hm.
           ++ intros k0 a0 [].
        -- left. repeat split; assumption.
      * right. exists (k :: pre), kb, post, f.
        repeat split; try assumption.
        -- cbn [app]. rewrite Hks. reflexivity.
        -- unfold st1, track_best in Hg.
           destruct (pygt a (best_score st)) eqn:Eg; cbn [best_score] in Hg;
             [exact (pygt_trans _ _ _ Hg Eg) | exact Hg].
        -- intros k0 a0 [->|Hin] Ha0; [|exact (Hpre k0 a0 Hin Ha0)].
           rewrite Ek in Ha0. inversion Ha0; subst.
           exact (pygt_below _ _ _ Hg Hk1).
Qed.

End Selection.

(** ** A completed [fit] *)

Section Completed.

Context {sk : Sklearn}.

Lemma traverse_Forall2 {A B : Type} (f : A -> result B) (l : list A) bs :
  traverse f l = inr bs -> Forall2 (fun a b => f a = inr b) l bs.
Proof.
  revert bs. induction l as [|a l IH]; simpl; intros bs H.
  - inversion H. constructor.
  - destruct (f a) eqn:Ea; [discriminate|].
    destruct (traverse f l); [discriminate|].
    inversion H; subst. constructor; [exact Ea | apply IH; reflexivity].
Qed.

Lemma traverse_all_ok {A B : Type} (f : A -> result B) (l : list A) :
  (forall a, In a l -> exists b, f a = inr b) ->
  exists bs, traverse f l = inr bs.
Proof.
  induction l as [|a l IH]; intros H; simpl; [eauto|].
  destruct (H a (or_introl eq_refl)) as [b ->].
  destruct IH as [bs ->]; [intros; apply H; right; assumption|]. eauto.
Qed.



(** Everything a completed [fit] leaves behind. *)
Lemma fit_completed X w w' :
  fit X w = (w', inr tt) ->
  exists rec pre kb post ab f,
    k_values (self w) = pre ++ kb :: post /\
    map fst rec = k_values (self w) /\
    (forall k a, In (k, a) rec -> candidate_score (self w) X k = inr a) /\
    candidate_score (self w) X kb = inr ab /\
    pygt ab (Fin (-1)) = true /\
    (forall k a, In (k, a) rec -> pygt a ab = false) /\
    (forall k a, In k pre -> candidate_score (self w) X k = inr a ->
                 pygt ab a = true \/ a = NaN) /\
    kmeans_fit kb (random_state (self w) + (n_repetitions (self w) - 1)) X
      = inr f /\
    same_config (self w') (self w) /\
    scores_ (self w') = record_all rec (scores_ (self w)) /\
    best_k_ (self w') = Some (Some kb) /\
    best_model_ (self w') =
      Some {| n_clusters := kb;
              km_random_state :=
                random_state (self w) + (n_repetitions (self w) - 1);
              km_fitted := Some f |} /\
    calls w' =
      calls w ++ flat_map (repetition_calls (self w)) (k_values (self w))
      ++ [CallFit kb (random_state (self w) + (n_repetitions (self w) - 1))].
Proof.
  rewrite fit_eq.
  destruct (candidates (self w) X (k_values (self w)) locals0)
    as [[rec evs] [e|st]] eqn:E; [discriminate|].
  destruct (candidates_recorded _ _ _ _ _ _ _ E)
    as ((rest & Hks & Hrest) & Hrec & Hevs).
  rewrite (Hrest st eq_refl), app_nil_r in Hks.
  rewrite (Hevs st eq_refl).
  destruct (candidates_best _ _ _ _ _ _ _ E) as (Hmax & Hsel).
  unfold refit.
  destruct Hsel as [(_ & _ & Hbm)|
                    (pre & kb & post & f & Hsplit & Hbk & Hsc & Hg & Hf & Hbm & Hpre)].
  - rewrite Hbm. cbn [locals0 best_model]. discriminate.
  - rewrite Hbm, Hbk. cbn [n_clusters km_random_state]. rewrite Hf.
    intros H. inversion H; subst w'. clear H.
    exists rec, pre, kb, post, (best_score st), f.
    repeat split; try assumption; try (symmetry; assumption).
    cbn. rewrite <- app_assoc. reflexivity.
Qed.

(** The table after [fit], whatever its outcome, is the table before with
    the assignments of the candidates that were evaluated. *)
Lemma fit_scores X w w' r :
  fit X w = (w', r) ->
  exists rec rest,
    k_values (self w) = map fst rec ++ rest /\
    (r = inr tt -> rest = []) /\
    (forall k a, In (k, a) rec -> candidate_score (self w) X k = inr a) /\
    scores_ (self w') = record_all rec (scores_ (self w)).
Proof.
  rewrite fit_eq.
  destruct (candidates (self w) X (k_values (self w)) locals0)
    as [[rec evs] r0] eqn:E.
  destruct (candidates_recorded _ _ _ _ _ _ _ E)
    as ((rest & Hks & Hrest) & Hrec & _).
  intros H. exists rec, rest. split; [exact Hks|]. split; [|split].
  - intros ->. destruct r0 as [e|st]; [inversion H|]. eapply Hrest. reflexivity.
  - exact Hrec.
  - destruct r0 as [e|st].
    + inversion H. reflexivity.
    + unfold refit in H. destruct (best_model st) as [m|].
      * destruct (kmeans_fit (n_clusters m) (km_random_state m) X);
          inversion H; reflexivity.
      * inversion H. reflexivity.
Qed.

(** A key assigned by the loop holds the score of its candidate. *)
Lemma recorded_score s X rec d k :
  (forall k a, In (k, a) rec -> candidate_score s X k = inr a) ->
  In k (map fst rec) ->
  exists a, candidate_score s X k = inr a /\
            dict_get k (record_all rec d) = Some a.
Proof.
  intros Hrec Hin. destruct (proj1 (in_map_iff _ _ _) Hin) as [[k0 a] [E Hp]].
  cbn [fst] in E. subst k0. exists a. split; [exact (Hrec k a Hp)|].
  apply record_all_in; [exact Hin|].
  intros a' Ha'. pose proof (Hrec k a' Ha') as H1.
  rewrite (Hrec k a Hp) in H1. inversion H1. reflexivity.
Qed.

End Completed.

(** ** [np.mean] is the arithmetic mean *)






(** ** Prefixes of the candidates *)

Section Prefixes.

Context {sk : Sklearn}.

Lemma candidates_app s X :
  forall l1 l2 st,
    candidates s X (l1 ++ l2) st =
    match candidates s X l1 st with
    | (rec1, evs1, inl e) => (rec1, evs1, inl e)
    | (rec1, evs1, inr st1) =>
        let '(rec2, evs2, r) := candidates s X l2 st1 in
        (rec1 ++ rec2, evs1 ++ evs2, r)
    end.
Proof.
  induction l1 as [|k l1 IH]; intros l2 st.
  - cbn. destruct (candidates s X l2 st) as [[rec2 evs2] r]. reflexivity.
  - cbn [app candidates]. destruct (candidate_score s X k); [reflexivity|].
    rewrite IH.
    destruct (candidates s X l1
                (track_best k p (candidate_model s X k (model st)) st))
      as [[rec1 evs1] [e|st1]]; [reflexivity|].
    destruct (candidates s X l2 st1) as [[rec2 evs2] r].
    cbn. rewrite <- app_assoc. reflexivity.
Qed.


(** The loop of [fit] over a prefix of the candidates, read back as the
    function [candidates]. *)
Lemma loop_completed X ks st w w1 st1 :
  for_ ks (fit_candidate X) st w = (w1, inr st1) ->
  exists rec evs,
    candidates (self w) X ks st = (rec, evs, inr st1) /\
    w1 = recorded w rec evs.
Proof.
  rewrite candidates_loop.
  destruct (candidates (self w) X ks st) as [[rec evs] r].
  intros H. inversion H; subst. eauto.
Qed.

Lemma recorded_add_calls w rec evs1 evs2 :
  recorded w rec (evs1 ++ evs2) = add_calls (recorded w rec evs1) evs2.
Proof. unfold recorded, add_calls. cbn. rewrite app_assoc. reflexivity. Qed.

Lemma traverse_fails_at {A B : Type} (f : A -> result B) l1 a l2 e :
  (forall x, In x l1 -> exists b, f x = inr b) ->
  f a = inl e ->
  traverse f (l1 ++ a :: l2) = inl e /\
  attempted f (l1 ++ a :: l2) = l1 ++ [a].
Proof.
  intros Hok Ha. induction l1 as [|x l1 IH]; cbn [app traverse attempted].
  - rewrite Ha. split; reflexivity.
  - destruct (Hok x (or_introl eq_refl)) as [b ->].
    destruct IH as [-> ->]; [intros; apply Hok; right; assumption|].
    split; reflexivity.
Qed.

Lemma range_split n i :
  0 <= i < n -> exists tl, range n = range i ++ i :: tl.
Proof.
  intros H. unfold range.
  replace (Z.to_nat n)
    with (Z.to_nat i + S (Z.to_nat n - Z.to_nat i - 1))%nat by lia.
  rewrite seq_app, map_app. cbn [seq map Nat.add].
  rewrite Z2Nat.id by lia. eauto.
Qed.

(** The evaluation of a candidate on which the clustering procedure
    raises at repetition [i], after succeeding on the repetitions before. *)
Lemma candidate_clustering_failure s X k i e :
  String.eqb (algorithm s) "k-means" = true ->
  0 <= i < n_repetitions s ->
  (forall j, 0 <= j < i ->
     exists f, kmeans_fit k (random_state s + j) X = inr f) ->
  kmeans_fit k (random_state s + i) X = inl e ->
  candidate_score s X k = inl e /\
  candidate_calls s X k =
    map (fun j => CallFitPredict k (random_state s + j)) (range (i + 1)).
Proof.
  intros Halg Hi Hok Hfail.
  destruct (range_split _ _ Hi) as [tl Htl].
  destruct (traverse_fails_at (repetition_fit s X k) (range i) i tl e)
    as [Ht Ha].
  { intros j Hj. apply In_range in Hj. exact (Hok j Hj). }
  { exact Hfail. }
  unfold candidate_score, candidate_calls, partitions.
  rewrite Halg, traverse_labels, Htl, Ht, Ha. cbn [orb].
  rewrite range_succ by lia. split; reflexivity.
Qed.

End Prefixes.

(** * The claims *)

Section Claims.

Context {sk : Sklearn}.


Lemma partitions_score_inv s parts a :
  partitions_score s parts = inr a ->
  exists scores,
    Forall2 (agreement s) (unordered_pairs parts) scores /\
    a = np_mean scores.
Proof.
  unfold partitions_score, mean_agreement, pair_agreements, agreement.
  destruct (selected_metric (metric s)) as [score|].
  - destruct (traverse (fun p => score (fst p) (snd p))
                (unordered_pairs parts)) as [e|scores] eqn:E; [discriminate|].
    intros H. inversion H; subst. exists scores. split; [|reflexivity].
    apply traverse_Forall2 in E. eapply Forall2_impl; [|exact E].
    intros p x Hp. exists score. split; [reflexivity | exact Hp].
  - destruct (unordered_pairs parts); [|discriminate].
    intros H. inversion H; subst. exists []. split; [constructor | reflexivity].
Qed.

(** C1.  [predict] raises NotFittedError in every state of the estimator,
    before [fit] and also after a [fit] that completed: it asks
    [check_is_fitted] for an attribute named "best_model", while [fit]
    stores the selected model under "best_model_". *)
Theorem predict_raises_NotFittedError (X : Dataset) (w : world) :
  predict X w = (w, inl NotFittedError).
Proof. reflexivity. Qed.

(** C2 (as amended).  After [fit] completes on an estimator whose score
    table was empty, the keys of the table are the distinct elements of
    [k_values] in order of first occurrence; they are [k_values] itself
    when it has no duplicates.  Every element of [k_values], duplicates
    included, had its repetitions run. *)
Theorem score_table_keys_first_occurrences (X : Dataset) (w w' : world) :
  scores_ (self w) = [] ->
  fit X w = (w', inr tt) ->
  dict_keys (scores_ (self w')) = first_occurrences (k_values (self w)) /\
  (NoDup (k_values (self w)) ->
   dict_keys (scores_ (self w')) = k_values (self w)) /\
  exists refit_call,
    calls w' =
    calls w ++ flat_map (repetition_calls (self w)) (k_values (self w))
    ++ [refit_call].
Proof.
  intros Hempty H.
  destruct (fit_completed _ _ _ H)
    as (rec & pre & kb & post & ab & f & _ & Hks & _ & _ & _ & _ & _ & _ & _
        & Hsc & _ & _ & Hcalls).
  assert (Hkeys : dict_keys (scores_ (self w')) =
                  first_occurrences (k_values (self w))).
  { rewrite Hsc, record_all_keys, Hks, Hempty. apply fold_add_key_nil. }
  split; [exact Hkeys|]. split.
  - intros Hnd. rewrite Hkeys. apply first_occurrences_id. exact Hnd.
  - eexists. exact Hcalls.
Qed.

(** The selection of a completed [fit], whatever the table held at
    entry: [best_k_] is an element of [k_values] whose recorded mean
    exceeds the sentinel -1 and is exceeded by the recorded mean of no
    element of [k_values]; every candidate before it in the sequence has a
    strictly smaller (or NaN) mean.  When the table was empty at entry, no
    entry of the table at all exceeds it. *)
Lemma selection_among_candidates (X : Dataset) (w w' : world) :
  fit X w = (w', inr tt) ->
  exists pre kb post ab,
    best_k_ (self w') = Some (Some kb) /\
    k_values (self w) = pre ++ kb :: post /\
    dict_get kb (scores_ (self w')) = Some ab /\
    pygt ab (Fin (-1)) = true /\
    (forall k, In k (k_values (self w)) ->
       exists a, dict_get k (scores_ (self w')) = Some a /\
                 pygt a ab = false) /\
    (forall k, In k pre ->
       exists a, dict_get k (scores_ (self w')) = Some a /\
                 (pygt ab a = true \/ a = NaN)) /\
    (scores_ (self w) = [] ->
     forall k a, dict_get k (scores_ (self w')) = Some a ->
                 pygt a ab = false).
Proof.
  intros H.
  destruct (fit_completed _ _ _ H)
    as (rec & pre & kb & post & ab & f & Hsplit & Hks & Hrec & Hkb & Hgt
        & Hmax & Hpre & _ & _ & Hsc & Hbk & _ & _).
  assert (Hget : forall k, In k (k_values (self w)) ->
            exists a, candidate_score (self w) X k = inr a /\
                      In (k, a) rec /\
                      dict_get k (scores_ (self w')) = Some a).
  { intros k Hin. rewrite <- Hks in Hin.
    destruct (recorded_score _ _ _ (scores_ (self w)) _ Hrec Hin)
      as (a & Ha & Hd).
    exists a. split; [exact Ha|]. split; [|rewrite Hsc; exact Hd].
    apply in_map_iff in Hin. destruct Hin as [[k0 a0] [E Hp]].
    cbn [fst] in E. subst k0. pose proof (Hrec k a0 Hp) as H1.
    rewrite Ha in H1. inversion H1; subst. exact Hp. }
  assert (Hin_kb : In kb (k_values (self w))).
  { rewrite Hsplit. apply in_or_app. right. left. reflexivity. }
  exists pre, kb, post, ab. split; [exact Hbk|]. split; [exact Hsplit|].
  split.
  { destruct (Hget kb Hin_kb) as (a & Ha & _ & Hd).
    rewrite Hkb in Ha. inversion Ha; subst. exact Hd. }
  split; [exact Hgt|]. split; [|split].
  - intros k Hin. destruct (Hget k Hin) as (a & _ & Hp & Hd).
    exists a. split; [exact Hd | exact (Hmax k a Hp)].
  - intros k Hin.
    assert (Hin' : In k (k_values (self w))).
    { rewrite Hsplit. apply in_or_app. left. exact Hin. }
    destruct (Hget k Hin') as (a & Ha & _ & Hd).
    exists a. split; [exact Hd | exact (Hpre k a Hin Ha)].
  - intros Hempty k a Hd.
    destruct (in_dec Z.eq_dec k (k_values (self w))) as [Hin|Hnin].
    + destruct (Hget k Hin) as (a' & _ & Hp & Hd').
      rewrite Hd in Hd'. inversion Hd'; subst. exact (Hmax k a' Hp).
    + rewrite Hsc, record_all_notin, Hempty in Hd by (rewrite Hks; exact Hnin).
      discriminate Hd.
Qed.

(** C5.  After [fit] completes on an estimator as [__init__] leaves it
    (an empty score table), [best_k_] is an element of [k_values]; its
    mean exceeds the sentinel -1 and is maximal among all entries of the
    score table, no entry being strictly greater; every candidate before
    it in the sequence has a strictly smaller (or NaN) mean, so of several
    candidates with the maximal mean the first encountered is selected. *)
Theorem best_k_first_maximal_candidate (X : Dataset) (w w' : world) :
  scores_ (self w) = [] ->
  fit X w = (w', inr tt) ->
  exists pre kb post ab,
    best_k_ (self w') = Some (Some kb) /\
    k_values (self w) = pre ++ kb :: post /\
    dict_get kb (scores_ (self w')) = Some ab /\
    pygt ab (Fin (-1)) = true /\
    (forall k a, dict_get k (scores_ (self w')) = Some a ->
                 pygt a ab = false) /\
    (forall k, In k (k_values (self w)) ->
       exists a, dict_get k (scores_ (self w')) = Some a) /\
    (forall k, In k pre ->
       exists a, dict_get k (scores_ (self w')) = Some a /\
                 (pygt ab a = true \/ a = NaN)).
Proof.
  intros Hempty H.
  destruct (selection_among_candidates X w w' H)
    as (pre & kb & post & ab & Hbk & Hsplit & Hd & Hgt & Hks & Hpre & Hall).
  exists pre, kb, post, ab.
  split; [exact Hbk|]. split; [exact Hsplit|]. split; [exact Hd|].
  split; [exact Hgt|]. split; [exact (Hall Hempty)|]. split; [|exact Hpre].
  intros k Hk. destruct (Hks k Hk) as (a & Ha & _). eauto.
Qed.



Lemma range_pos n : 0 < n -> exists t, range n = 0 :: t.
Proof.
  intros H. unfold range. destruct (Z.to_nat n) as [|m] eqn:E; [lia|].
  simpl. eauto.
Qed.

Lemma candidate_score_nonpos s X k :
  n_repetitions s <= 0 ->
  candidate_score s X k = inr NaN /\
  candidate_calls s X k = [] /\
  forall m0, candidate_model s X k m0 = m0.
Proof.
  intros Hn. unfold candidate_score, candidate_calls, candidate_model,
    partitions, partitions_score, mean_agreement, pair_agreements.
  rewrite (range_nonpos _ Hn).
  destruct (Z.leb_spec (n_repetitions s) 0); [|lia].
  destruct (Z.ltb_spec 0 (n_repetitions s)); [lia|].
  rewrite orb_true_r. cbn.
  repeat split;
    [destruct (selected_metric (metric s)); reflexivity
    |destruct (String.eqb (algorithm s) "k-means"); reflexivity].
Qed.

Lemma candidates_nonpos s X :
  n_repetitions s <= 0 ->
  forall ks st,
    exists st',
      candidates s X ks st = (map (fun k => (k, NaN)) ks, [], inr st') /\
      best_k st' = best_k st /\ best_model st' = best_model st.
Proof.
  intros Hn. induction ks as [|k ks IH]; intros st.
  - exists st. repeat split.
  - cbn [candidates].
    destruct (candidate_score_nonpos s X k Hn) as (-> & -> & Hm).
    rewrite Hm. unfold track_best. rewrite pygt_NaN.
    destruct (IH {| best_k := best_k st; best_score := best_score st;
                    best_model := best_model st; model := model st |})
      as (st' & -> & Hk & Hb).
    exists st'. repeat split; assumption.
Qed.

(** With fewer than two repetitions nothing is ever selected. *)
Lemma candidates_few s X ks st rec evs st' :
  n_repetitions s < 2 ->
  candidates s X ks st = (rec, evs, inr st') ->
  best_model st' = best_model st /\
  forall k a, In (k, a) rec -> a = NaN.
Proof.
  intros Hn E.
  destruct (candidates_best _ _ _ _ _ _ _ E) as (_ & Hsel).
  destruct (candidates_recorded _ _ _ _ _ _ _ E) as (_ & Hrec & _).
  split.
  - destruct Hsel as [(_ & _ & Hbm)|(? & kb & ? & ? & _ & _ & Hsc & Hg & _)];
      [exact Hbm|].
    rewrite (candidate_score_few _ _ _ _ Hn Hsc) in Hg. discriminate Hg.
  - intros k a Hin. exact (candidate_score_few _ _ _ _ Hn (Hrec k a Hin)).
Qed.

Lemma candidates_all_ok s X :
  forall ks st,
    (forall k, In k ks -> exists a, candidate_score s X k = inr a) ->
    exists rec st',
      candidates s X ks st = (rec, flat_map (repetition_calls s) ks, inr st').
Proof.
  induction ks as [|k ks IH]; intros st H.
  - exists [], st. reflexivity.
  - cbn [candidates flat_map].
    destruct (H k (or_introl eq_refl)) as [a Ha]. rewrite Ha.
    destruct (IH (track_best k a (candidate_model s X k (model st)) st))
      as (rec & st' & E); [intros; apply H; right; assumption|].
    rewrite E, (candidate_calls_ok _ _ _ _ Ha). eauto.
Qed.

Lemma partitions_all_ok s X k :
  (forall i, 0 <= i < n_repetitions s ->
             exists f, kmeans_fit k (random_state s + i) X = inr f) ->
  exists fs,
    traverse (repetition_fit s X k) (range (n_repetitions s)) = inr fs /\
    partitions s X k = inr (map labels_ fs).
Proof.
  intros H.
  destruct (traverse_all_ok (repetition_fit s X k) (range (n_repetitions s)))
    as [fs Hfs].
  { intros i Hi. apply In_range in Hi. exact (H i Hi). }
  exists fs. split; [exact Hfs|].
  unfold partitions. rewrite traverse_labels, Hfs. reflexivity.
Qed.

(** C3 (as amended).  With at least one candidate and one repetition, an
    unsupported algorithm name makes [fit] raise the invalid-algorithm
    error before any call to the clustering procedure, the estimator
    untouched.  With a supported algorithm, an unsupported metric name, at
    least two repetitions and a first candidate whose repetitions succeed,
    [fit] raises the invalid-metric error after exactly the repetitions of
    that first candidate. *)
Theorem invalid_names_raise (X : Dataset) (w : world) :
  (String.eqb (algorithm (self w)) "k-means" = false ->
   k_values (self w) <> [] ->
   0 < n_repetitions (self w) ->
   fit X w = (w, inl InvalidAlgorithm)) /\
  (forall k ks,
     String.eqb (algorithm (self w)) "k-means" = true ->
     String.eqb (metric (self w)) "rand" = false ->
     String.eqb (metric (self w)) "adjusted_rand" = false ->
     k_values (self w) = k :: ks ->
     2 <= n_repetitions (self w) ->
     (forall i, 0 <= i < n_repetitions (self w) ->
        exists f, kmeans_fit k (random_state (self w) + i) X = inr f) ->
     fit X w = (add_calls w (repetition_calls (self w) k), inl InvalidMetric)).
Proof.
  split.
  - intros Halg Hks Hn. rewrite fit_eq.
    destruct (k_values (self w)) as [|k ks]; [congruence|].
    cbn [candidates]. unfold candidate_score, candidate_calls.
    rewrite Halg. destruct (Z.leb_spec (n_repetitions (self w)) 0); [lia|].
    cbn [orb]. rewrite recorded_nil, add_calls_nil. reflexivity.
  - intros k ks Halg Hm1 Hm2 Hks Hn Hfits. rewrite fit_eq, Hks.
    cbn [candidates].
    destruct (partitions_all_ok _ X k Hfits) as (fs & Hfs & Hp).
    assert (Hcalls : candidate_calls (self w) X k =
                     repetition_calls (self w) k).
    { unfold candidate_calls, repetition_calls.
      rewrite Halg, (attempted_all _ _ _ Hfs). reflexivity. }
    unfold candidate_score. rewrite Halg, Hp. cbn [orb].
    unfold partitions_score, selected_metric. rewrite Hm1, Hm2.
    destruct (unordered_pairs (map labels_ fs)) eqn:Eu.
    + apply unordered_pairs_nil in Eu.
      rewrite length_map, (traverse_length _ _ _ Hfs), range_length in Eu.
      lia.
    + rewrite Hcalls, recorded_nil. reflexivity.
Qed.

(** C4 (as amended).  With fewer than two repetitions [fit] always ends
    in an exception, but only after the loop over the candidates: when
    the algorithm is supported and the clustering procedure succeeds, the
    repetitions of every candidate are run, NaN is recorded for each, and
    the exception is the AttributeError of the final refit.  [fit] does
    not look at the range of a candidate: wherever the candidate stands in
    [k_values], once the loop got through the candidates before it, it
    goes to the clustering procedure, and an exception of that procedure,
    at whichever repetition, leaves [fit] unchanged right after that
    call. *)
Theorem fewer_than_two_repetitions_fail (X : Dataset) (w : world) :
  (n_repetitions (self w) < 2 ->
   exists w' e,
     fit X w = (w', inl e) /\
     (String.eqb (algorithm (self w)) "k-means" = true ->
      (forall k i, In k (k_values (self w)) ->
         0 <= i < n_repetitions (self w) ->
         exists f, kmeans_fit k (random_state (self w) + i) X = inr f) ->
      e = NoneHasNoFit /\
      calls w' =
        calls w ++ flat_map (repetition_calls (self w)) (k_values (self w))
      /\
      forall k, In k (k_values (self w)) ->
                dict_get k (scores_ (self w')) = Some NaN)) /\
  (forall pre k post i e w1 st,
     k_values (self w) = pre ++ k :: post ->
     String.eqb (algorithm (self w)) "k-means" = true ->
     for_ pre (fit_candidate X) locals0 w = (w1, inr st) ->
     0 <= i < n_repetitions (self w) ->
     (forall j, 0 <= j < i ->
        exists f, kmeans_fit k (random_state (self w) + j) X = inr f) ->
     kmeans_fit k (random_state (self w) + i) X = inl e ->
     fit X w =
       (add_calls w1
          (map (fun j => CallFitPredict k (random_state (self w) + j))
               (range (i + 1))),
        inl e)).
Proof.
  split.
  - intros Hn. rewrite fit_eq.
    destruct (candidates (self w) X (k_values (self w)) locals0)
      as [[rec evs] [e|st]] eqn:E.
    + eexists; eexists. split; [reflexivity|]. intros Halg Hfits.
      destruct (candidates_all_ok (self w) X (k_values (self w)) locals0)
        as (rec' & st' & E'); [|congruence].
      intros k Hk.
      destruct (partitions_all_ok _ X k (fun i Hi => Hfits k i Hk Hi))
        as (fs & _ & Hp).
      unfold candidate_score. rewrite Halg, Hp. cbn [orb].
      assert (Hu : unordered_pairs (map labels_ fs) = []).
      { apply unordered_pairs_nil.
        assert (Hl : partitions (self w) X k = inr (map labels_ fs)) by exact Hp.
        unfold partitions in Hl. apply traverse_length in Hl.
        rewrite Hl, range_length. lia. }
      unfold partitions_score, mean_agreement, pair_agreements.
      rewrite Hu. destruct (selected_metric (metric (self w))); cbn; eauto.
    + destruct (candidates_few _ _ _ _ _ _ _ Hn E) as (Hbm & Hnan).
      destruct (candidates_recorded _ _ _ _ _ _ _ E)
        as ((rest & Hks & Hrest) & Hrec & Hevs).
      unfold refit. rewrite Hbm. cbn [locals0 best_model].
      eexists; eexists. split; [reflexivity|]. intros _ _.
      split; [reflexivity|]. split.
      * cbn. rewrite (Hevs st eq_refl). reflexivity.
      * intros k Hk. cbn.
        rewrite (Hrest st eq_refl), app_nil_r in Hks. rewrite Hks in Hk.
        destruct (recorded_score _ _ _ (scores_ (self w)) _ Hrec Hk)
          as (a & Ha & Hd).
        rewrite Hd, (candidate_score_few _ _ _ _ Hn Ha). reflexivity.
  - intros pre k post i e w1 st Hks Halg Hloop Hi Hok Hfail.
    destruct (loop_completed _ _ _ _ _ _ Hloop) as (rec & evs & Hc & ->).
    destruct (candidate_clustering_failure _ X k i e Halg Hi Hok Hfail)
      as (Hscore & Hcalls).
    rewrite fit_eq, Hks, candidates_app, Hc. cbn [candidates].
    rewrite Hscore, Hcalls, app_nil_r.
    apply (f_equal (fun x => (x, inl e))). apply recorded_add_calls.
Qed.

(** C8.  [fit] is a function of the constructor parameters and the
    dataset: from two estimator states with the same parameters it has the
    same outcome, makes the same calls, selects the same [k] and model and
    records the same value for every element of [k_values]; the whole
    tables are equal when they were equal at entry, and a second [fit] on
    the same estimator leaves the estimator as the first left it. *)
Theorem fit_deterministic (X : Dataset) (w1 w2 w1' : world)
    (r : result unit) :
  same_config (self w1) (self w2) ->
  fit X w1 = (w1', r) ->
  exists w2' evs,
    fit X w2 = (w2', r) /\
    calls w1' = calls w1 ++ evs /\
    calls w2' = calls w2 ++ evs /\
    (r = inr tt ->
     best_k_ (self w1') = best_k_ (self w2') /\
     best_model_ (self w1') = best_model_ (self w2') /\
     (forall k, In k (k_values (self w1)) ->
        dict_get k (scores_ (self w1')) = dict_get k (scores_ (self w2'))) /\
     (scores_ (self w1) = scores_ (self w2) ->
      scores_ (self w1') = scores_ (self w2')) /\
     exists w1'', fit X w1' = (w1'', inr tt) /\ self w1'' = self w1').
Proof.
  intros Hcfg H1. pose proof Hcfg as (Hks & _).
  rewrite fit_eq in H1. rewrite fit_eq.
  rewrite <- (candidates_config (self w1) (self w2)), <- Hks by exact Hcfg.
  destruct (candidates (self w1) X (k_values (self w1)) locals0)
    as [[rec evs] [e|st]] eqn:E.
  - inversion H1; subst. eexists; exists evs.
    split; [reflexivity|]. split; [reflexivity|]. split; [reflexivity|].
    discriminate.
  - destruct (candidates_recorded _ _ _ _ _ _ _ E)
      as ((rest & Hrks & Hrest) & Hrec & _).
    rewrite (Hrest st eq_refl), app_nil_r in Hrks.
    unfold refit in *. destruct (best_model st) as [m|] eqn:Ebm.
    + destruct (kmeans_fit (n_clusters m) (km_random_state m) X)
        as [e|f] eqn:Ef; inversion H1; subst; clear H1.
      * eexists; exists (evs ++ [CallFit (n_clusters m) (km_random_state m)]).
        split; [reflexivity|].
        cbn [calls self add_calls set_best_k_ recorded fst].
        rewrite <- !app_assoc.
        split; [reflexivity|]. split; [reflexivity|]. discriminate.
      * eexists; exists (evs ++ [CallFit (n_clusters m) (km_random_state m)]).
        split; [reflexivity|].
        cbn [calls self add_calls set_best_k_ set_best_model_ recorded fst
             best_k_ best_model_ scores_ k_values].
        rewrite <- !app_assoc.
        split; [reflexivity|]. split; [reflexivity|]. intros _.
        split; [reflexivity|]. split; [reflexivity|]. split; [|split].
        -- intros k Hk. rewrite Hrks in Hk.
           destruct (recorded_score _ _ _ (scores_ (self w1)) _ Hrec Hk)
             as (a1 & Ha1 & ->).
           destruct (recorded_score _ _ _ (scores_ (self w2)) _ Hrec Hk)
             as (a2 & Ha2 & ->).
           congruence.
        -- intros ->. reflexivity.
        -- rewrite fit_eq.
           cbn [calls self add_calls set_best_k_ set_best_model_ recorded fst
                best_k_ best_model_ scores_ k_values].
           match goal with
           | |- context [candidates ?s X _ locals0] =>
               rewrite (candidates_config s (self w1)) by (repeat split)
           end.
           rewrite E. unfold refit. rewrite Ebm, Ef.
           eexists. split; [reflexivity|].
           cbn [calls self add_calls set_best_k_ set_best_model_ recorded fst
                best_k_ best_model_ scores_ k_values n_repetitions algorithm
                metric random_state].
           rewrite (record_all_present rec
                      (record_all rec (scores_ (self w1)))); [reflexivity|].
           intros k a Hin.
           assert (Hk : In k (map fst rec)).
           { apply in_map_iff. exists (k, a). split; [reflexivity|exact Hin]. }
           destruct (recorded_score _ _ _ (scores_ (self w1)) _ Hrec Hk)
             as (a' & Ha' & ->).
           rewrite (Hrec k a Hin) in Ha'. congruence.
    + inversion H1; subst. eexists; exists evs.
      split; [reflexivity|].
      cbn [calls self add_calls set_best_k_ recorded fst].
      split; [reflexivity|]. split; [reflexivity|]. discriminate.
Qed.

(** C9.  [fit] only adds to the score table or overwrites the entries of
    its own [k_values]: the keys present before are still there, in place,
    and the entry of every [k] outside [k_values] is as it was, whether
    [fit] completes or fails. *)
Theorem earlier_scores_survive_fit (X : Dataset) (w w' : world)
    (r : result unit) :
  fit X w = (w', r) ->
  (exists added,
     dict_keys (scores_ (self w')) = dict_keys (scores_ (self w)) ++ added) /\
  forall k, ~ In k (k_values (self w)) ->
            dict_get k (scores_ (self w')) = dict_get k (scores_ (self w)).
Proof.
  intros H.
  destruct (fit_scores _ _ _ _ H) as (rec & rest & Hks & _ & _ & Hsc).
  rewrite Hsc. split.
  - rewrite record_all_keys, fold_add_key. eauto.
  - intros k Hk. apply record_all_notin. intros Hin. apply Hk.
    rewrite Hks. apply in_or_app. left. exact Hin.
Qed.

(** C10.  With [n_repetitions = 0] and a candidate to evaluate, [fit]
    raises neither of the two name errors, whatever the algorithm and
    metric names: it calls the clustering procedure not once, records NaN
    for every candidate and fails with the AttributeError of the final
    refit of a model that was never selected. *)
Theorem zero_repetitions_skip_name_checks (X : Dataset) (w : world) :
  n_repetitions (self w) = 0 ->
  k_values (self w) <> [] ->
  exists w',
    fit X w = (w', inl NoneHasNoFit) /\
    NoneHasNoFit <> InvalidAlgorithm /\
    NoneHasNoFit <> InvalidMetric /\
    calls w' = calls w /\
    (forall k, In k (k_values (self w)) ->
               dict_get k (scores_ (self w')) = Some NaN) /\
    best_model_ (self w') = best_model_ (self w).
Proof.
  intros Hn _. rewrite fit_eq.
  destruct (candidates_nonpos (self w) X (Z.eq_le_incl _ _ Hn)
              (k_values (self w)) locals0) as (st & -> & _ & Hbm).
  unfold refit. rewrite Hbm. cbn [locals0 best_model].
  eexists. split; [reflexivity|].
  split; [discriminate|]. split; [discriminate|]. split; [|split].
  - cbn. apply app_nil_r.
  - intros k Hk. cbn. apply record_all_in.
    + rewrite map_map. cbn [fst]. rewrite map_id. exact Hk.
    + intros a' Hin. apply in_map_iff in Hin.
      destruct Hin as [k0 [E _]]. inversion E. reflexivity.
  - reflexivity.
Qed.

End Claims.

(** * The claims on the reference instance *)

Import Reference.

Lemma after_fit_outcome (X : list Z) (w : world) (r : result unit) :
  snd (fit X w) = r -> fit X w = (after_fit X w, r).
Proof. unfold after_fit. apply outcome_eq. Qed.

(** [predict] right after a [fit] that completed. *)
Example predict_after_fit_example :
  let w := fresh [2; 3] 2 "k-means" "rand" in
  snd (fit X6 w) = inr tt /\
  best_k_ (self (after_fit X6 w)) = Some (Some 3) /\
  snd (predict X6 (after_fit X6 w)) = inl NotFittedError.
Proof.
  split; [vm_compute; reflexivity|].
  split; vm_compute; reflexivity.
Qed.

(** C2, counterexample: with the candidate 3 given twice, [fit] completes
    and the table has the single key 3, not one key per element. *)
Lemma score_table_duplicates_counterexample :
  let w := fresh [3; 3] 2 "k-means" "rand" in
  snd (fit X6 w) = inr tt /\
  dict_keys (scores_ (self (after_fit X6 w))) = [3] /\
  dict_keys (scores_ (self (after_fit X6 w))) <> k_values (self w) /\
  List.length (scores_ (self (after_fit X6 w))) <>
  List.length (k_values (self w)).
Proof.
  split; [vm_compute; reflexivity|].
  split; [vm_compute; reflexivity|].
  split; vm_compute; discriminate.
Qed.

Lemma score_table_keys_first_occurrences_witness :
  let w := fresh [3; 2; 3] 3 "k-means" "adjusted_rand" in
  scores_ (self w) = [] /\
  fit X6 w = (after_fit X6 w, inr tt) /\
  dict_keys (scores_ (self (after_fit X6 w))) = [3; 2].
Proof.
  intros w.
  assert (H0 : scores_ (self w) = []) by reflexivity.
  assert (H1 : fit X6 w = (after_fit X6 w, inr tt))
    by (apply after_fit_outcome; vm_compute; reflexivity).
  split; [exact H0|]. split; [exact H1|].
  exact (proj1 (score_table_keys_first_occurrences (sk := sklearn) X6 w _ H0 H1)).
Defined.

(** C3, counterexample: with a supported algorithm and the metric "bogus",
    [fit] raises the invalid-metric error only after two fits of the
    clustering procedure. *)
Lemma invalid_metric_after_clustering_counterexample :
  let w := fresh [2] 2 "k-means" "bogus" in
  String.eqb (metric (self w)) "rand" = false /\
  String.eqb (metric (self w)) "adjusted_rand" = false /\
  snd (fit X6 w) = inl InvalidMetric /\
  calls (after_fit X6 w) = [CallFitPredict 2 42; CallFitPredict 2 43] /\
  calls (after_fit X6 w) <> calls w.
Proof.
  split; [vm_compute; reflexivity|].
  split; [vm_compute; reflexivity|].
  split; [vm_compute; reflexivity|].
  split; [vm_compute; reflexivity | vm_compute; discriminate].
Qed.

Lemma invalid_names_raise_witness :
  let wa := fresh [2] 2 "bogus" "rand" in
  let wm := fresh [2] 2 "k-means" "bogus" in
  fit X6 wa = (wa, inl InvalidAlgorithm) /\
  fit X6 wm =
    (add_calls wm [CallFitPredict 2 42; CallFitPredict 2 43],
     inl InvalidMetric).
Proof.
  intros wa wm. split.
  - apply (proj1 (invalid_names_raise (sk := sklearn) X6 wa)).
    + reflexivity.
    + discriminate.
    + reflexivity.
  - apply (proj2 (invalid_names_raise (sk := sklearn) X6 wm) 2 []).
    + reflexivity.
    + reflexivity.
    + reflexivity.
    + reflexivity.
    + discriminate.
    + intros i Hi. change (0 <= i < 2) in Hi.
      assert (E : i = 0 \/ i = 1) by lia.
      destruct E as [->| ->]; eexists; reflexivity.
Defined.

(** C4, counterexample: with one repetition [fit] runs a clustering fit
    for the candidate and then fails with an AttributeError. *)
Lemma one_repetition_counterexample :
  let w := fresh [2] 1 "k-means" "rand" in
  n_repetitions (self w) < 2 /\
  snd (fit X6 w) = inl NoneHasNoFit /\
  calls (after_fit X6 w) = [CallFitPredict 2 42] /\
  calls (after_fit X6 w) <> calls w.
Proof.
  split; [vm_compute; reflexivity|].
  split; [vm_compute; reflexivity|].
  split; [vm_compute; reflexivity | vm_compute; discriminate].
Qed.

Lemma fewer_than_two_repetitions_fail_witness :
  let w := fresh [2; 3] 1 "k-means" "rand" in
  let wk := fresh [2; 3; 7] 2 "k-means" "rand" in
  n_repetitions (self w) < 2 /\
  (exists w' e,
     fit X6 w = (w', inl e) /\
     (String.eqb (algorithm (self w)) "k-means" = true ->
      (forall k i, In k (k_values (self w)) ->
         0 <= i < n_repetitions (self w) ->
         exists f, kmeans_fit k (random_state (self w) + i) X6 = inr f) ->
      e = NoneHasNoFit /\
      calls w' =
        calls w ++ flat_map (repetition_calls (self w)) (k_values (self w))
      /\
      forall k, In k (k_values (self w)) ->
                dict_get k (scores_ (self w')) = Some NaN)) /\
  exists w1 st,
    for_ [2; 3] (fit_candidate X6) locals0 wk = (w1, inr st) /\
    fit X6 wk =
      (add_calls w1 [CallFitPredict 7 (42 + 0)],
       inl (ValueError "n_samples should be >= n_clusters")).
Proof.
  intros w wk. split; [reflexivity|]. split.
  - apply (proj1 (fewer_than_two_repetitions_fail (sk := sklearn) X6 w)).
    reflexivity.
  - destruct (candidates_all_ok (self wk) X6 [2; 3] locals0) as (rec & st & E).
    { intros k [<-|[<-|[]]]; eexists; vm_compute; reflexivity. }
    assert (Hloop : for_ [2; 3] (fit_candidate X6) locals0 wk =
                    (recorded wk rec
                       (flat_map (repetition_calls (self wk)) [2; 3]),
                     inr st)).
    { rewrite candidates_loop, E. reflexivity. }
    eexists; exists st. split; [exact Hloop|].
    apply (proj2 (fewer_than_two_repetitions_fail (sk := sklearn) X6 wk)
             [2; 3] 7 [] 0
             (ValueError "n_samples should be >= n_clusters") _ st).
    + reflexivity.
    + reflexivity.
    + exact Hloop.
    + change (0 <= 0 < 2). lia.
    + intros j Hj. lia.
    + reflexivity.
Defined.

Lemma best_k_first_maximal_candidate_witness :
  let w := fresh [2; 3; 3] 2 "k-means" "rand" in
  scores_ (self w) = [] /\
  fit X6 w = (after_fit X6 w, inr tt) /\
  exists pre kb post ab,
    best_k_ (self (after_fit X6 w)) = Some (Some kb) /\
    k_values (self w) = pre ++ kb :: post /\
    dict_get kb (scores_ (self (after_fit X6 w))) = Some ab /\
    pygt ab (Fin (-1)) = true /\
    (forall k a, dict_get k (scores_ (self (after_fit X6 w))) = Some a ->
                 pygt a ab = false) /\
    (forall k, In k (k_values (self w)) ->
       exists a, dict_get k (scores_ (self (after_fit X6 w))) = Some a) /\
    (forall k, In k pre ->
       exists a, dict_get k (scores_ (self (after_fit X6 w))) = Some a /\
                 (pygt ab a = true \/ a = NaN)).
Proof.
  intros w.
  assert (H0 : scores_ (self w) = []) by reflexivity.
  assert (H : fit X6 w = (after_fit X6 w, inr tt))
    by (apply after_fit_outcome; vm_compute; reflexivity).
  split; [exact H0|]. split; [exact H|].
  exact (best_k_first_maximal_candidate (sk := sklearn) X6 w _ H0 H).
Defined.



Lemma fit_deterministic_witness :
  let w1 := fresh [2] 2 "k-means" "rand" in
  same_config (self w1) (self refitted) /\
  fit X6 w1 = (after_fit X6 w1, inr tt) /\
  exists w2' evs,
    fit X6 refitted = (w2', inr tt) /\
    calls (after_fit X6 w1) = calls w1 ++ evs /\
    calls w2' = calls refitted ++ evs /\
    (inr tt = inr tt :> result unit ->
     best_k_ (self (after_fit X6 w1)) = best_k_ (self w2') /\
     best_model_ (self (after_fit X6 w1)) = best_model_ (self w2') /\
     (forall k, In k (k_values (self w1)) ->
        dict_get k (scores_ (self (after_fit X6 w1))) =
        dict_get k (scores_ (self w2'))) /\
     (scores_ (self w1) = scores_ (self refitted) ->
      scores_ (self (after_fit X6 w1)) = scores_ (self w2')) /\
     exists w1'',
       fit X6 (after_fit X6 w1) = (w1'', inr tt) /\
       self w1'' = self (after_fit X6 w1)).
Proof.
  intros w1.
  assert (Hc : same_config (self w1) (self refitted)) by (repeat split).
  assert (H : fit X6 w1 = (after_fit X6 w1, inr tt))
    by (apply after_fit_outcome; vm_compute; reflexivity).
  split; [exact Hc|]. split; [exact H|].
  exact (fit_deterministic (sk := sklearn) X6 w1 refitted _ _ Hc H).
Defined.

Lemma earlier_scores_survive_fit_witness :
  fit X6 refitted = (after_fit X6 refitted, inr tt) /\
  ~ In 1 (k_values (self refitted)) /\
  dict_get 1 (scores_ (self (after_fit X6 refitted))) =
  dict_get 1 (scores_ (self refitted)).
Proof.
  assert (H : fit X6 refitted = (after_fit X6 refitted, inr tt))
    by (apply after_fit_outcome; vm_compute; reflexivity).
  assert (Hn : ~ In 1 (k_values (self refitted))).
  { intros [E|[]]. discriminate E. }
  split; [exact H|]. split; [exact Hn|].
  exact (proj2 (earlier_scores_survive_fit (sk := sklearn) X6 refitted _ _ H) 1 Hn).
Defined.

Lemma zero_repetitions_skip_name_checks_witness :
  let w := fresh [2; 3] 0 "bogus" "bogus" in
  n_repetitions (self w) = 0 /\
  k_values (self w) <> [] /\
  exists w',
    fit X6 w = (w', inl NoneHasNoFit) /\
    NoneHasNoFit <> InvalidAlgorithm /\
    NoneHasNoFit <> InvalidMetric /\
    calls w' = calls w /\
    (forall k, In k (k_values (self w)) ->
               dict_get k (scores_ (self w')) = Some NaN) /\
    best_model_ (self w') = best_model_ (self w).
Proof.
  intros w.
  assert (H0 : n_repetitions (self w) = 0) by reflexivity.
  assert (H1 : k_values (self w) <> []) by discriminate.
  split; [exact H0|]. split; [exact H1|].
  exact (zero_repetitions_skip_name_checks (sk := sklearn) X6 w H0 H1).
Defined.

(** * Further properties of [fit] *)

(** ** Means stay within the bounds of what is averaged *)

Lemma pysum_bounds lo hi l :
  Forall (within lo hi) l ->
  forall acc, exists s,
    fold_left pyadd l (Fin acc) = Fin s /\
    (acc + lo * inject_Z (Z.of_nat (List.length l)) <= s
     <= acc + hi * inject_Z (Z.of_nat (List.length l)))%Q.
Proof.
  induction 1 as [|x l (q & -> & Hq) Hl IH]; intros acc.
  - exists acc. split; [reflexivity|].
    change (inject_Z (Z.of_nat (List.length (@nil pyfloat)))) with 0%Q. lra.
  - cbn [fold_left pyadd List.length].
    destruct (IH (acc + q)%Q) as (s & Hs & Hb).
    exists s. split; [exact Hs|].
    rewrite Nat2Z.inj_succ, <- Z.add_1_r, inject_Z_plus.
    change (inject_Z 1) with 1%Q. lra.
Qed.

Lemma np_mean_bounds lo hi l :
  l <> [] -> Forall (within lo hi) l -> within lo hi (np_mean l).
Proof.
  intros Hne Hl. destruct l as [|x l]; [congruence|].
  unfold np_mean, pysum.
  destruct (pysum_bounds lo hi _ Hl 0%Q) as (s & -> & Hb).
  exists (s / inject_Z (Z.of_nat (List.length (x :: l))))%Q.
  split; [reflexivity|].
  assert (Hpos : (0 < inject_Z (Z.of_nat (List.length (x :: l))))%Q).
  { change 0%Q with (inject_Z 0). rewrite <- Zlt_Qlt. cbn [List.length]. lia. }
  split.
  - apply Qle_shift_div_l; [exact Hpos | lra].
  - apply Qle_shift_div_r; [exact Hpos | lra].
Qed.

Lemma Forall2_Forall_r {A B : Type} (R : A -> B -> Prop) (P : B -> Prop)
    (l : list A) (l' : list B) :
  (forall a b, R a b -> P b) -> Forall2 R l l' -> Forall P l'.
Proof. intros H. induction 1; constructor; eauto. Qed.

Lemma Forall2_Forall_r_in {A B : Type} (R : A -> B -> Prop) (P : B -> Prop)
    (l : list A) (l' : list B) :
  Forall2 R l l' -> (forall a b, In a l -> R a b -> P b) -> Forall P l'.
Proof.
  induction 1 as [|a b l l' Hab _ IH]; intros H; constructor.
  - apply (H a b); [left; reflexivity | exact Hab].
  - apply IH. intros a' b' Hin. apply H. right. exact Hin.
Qed.

Lemma unordered_pairs_In {A : Type} (l : list A) (p : A * A) :
  In p (unordered_pairs l) -> In (fst p) l /\ In (snd p) l.
Proof.
  induction l as [|x l IH]; simpl; [tauto|].
  rewrite in_app_iff, in_map_iff. intros [(y & <- & Hy)|Hp].
  - simpl. tauto.
  - destruct (IH Hp). tauto.
Qed.


Section Further.

Context {sk : Sklearn}.

Lemma repetition_calls_length s ks :
  List.length (flat_map (repetition_calls s) ks) =
  (List.length ks * Z.to_nat (n_repetitions s))%nat.
Proof.
  induction ks as [|k ks IH]; [reflexivity|].
  cbn [flat_map List.length]. rewrite length_app, IH.
  unfold repetition_calls. rewrite length_map, range_length. lia.
Qed.



(** A [fit] that completes ran at least two repetitions. *)
Lemma fit_completed_repetitions X w w' :
  fit X w = (w', inr tt) -> 2 <= n_repetitions (self w).
Proof.
  intros H.
  destruct (fit_completed _ _ _ H)
    as (rec & pre & kb & post & ab & f & _ & _ & _ & Hkb & Hgt & _).
  destruct (Z.le_gt_cases 2 (n_repetitions (self w))) as [?|Hlt];
    [assumption|].
  rewrite (candidate_score_few _ _ _ _ Hlt Hkb) in Hgt.
  discriminate Hgt.
Qed.

(** X1.  With no candidate at all, [fit] calls the clustering procedure not
    once and fails with the AttributeError of the refit on a model that
    does not exist; the score table and [best_model_] are as before, and
    [best_k_] now exists and holds [None]. *)
Theorem fit_without_candidates (X : Dataset) (w : world) :
  k_values (self w) = [] ->
  exists w',
    fit X w = (w', inl NoneHasNoFit) /\
    calls w' = calls w /\
    scores_ (self w') = scores_ (self w) /\
    best_k_ (self w') = Some None /\
    best_model_ (self w') = best_model_ (self w).
Proof.
  intros Hks. rewrite fit_eq, Hks. cbn [candidates]. unfold refit.
  cbn [locals0 best_model best_k]. eexists. split; [reflexivity|].
  cbn. rewrite app_nil_r. repeat split.
Qed.

(** X2.  Whatever its outcome, [fit] leaves the constructor parameters of
    the estimator as they are and only adds to the calls made to the
    clustering procedure. *)
Theorem fit_keeps_parameters (X : Dataset) (w w' : world) (r : result unit) :
  fit X w = (w', r) ->
  same_config (self w') (self w) /\
  exists new_calls, calls w' = calls w ++ new_calls.
Proof.
  rewrite fit_eq.
  destruct (candidates (self w) X (k_values (self w)) locals0)
    as [[rec evs] [e|st]].
  - intros H. inversion H; subst. split; [repeat split|].
    exists evs. reflexivity.
  - unfold refit. destruct (best_model st) as [m|].
    + destruct (kmeans_fit (n_clusters m) (km_random_state m) X);
        intros H; inversion H; subst; (split; [repeat split|]);
        exists (evs ++ [CallFit (n_clusters m) (km_random_state m)]);
        cbn; rewrite <- app_assoc; reflexivity.
    + intros H; inversion H; subst. split; [repeat split|].
      exists evs. reflexivity.
Qed.

(** X3.  A [fit] that fails never touches [best_model_].  It leaves
    [best_k_] alone as well when the exception comes out of the loop over
    the candidates; when the loop ran through without selecting anything,
    [best_k_] has been overwritten with [None] before the AttributeError. *)
Theorem failed_fit_keeps_selected_model (X : Dataset) (w w' : world)
    (e : exn) :
  fit X w = (w', inl e) ->
  best_model_ (self w') = best_model_ (self w) /\
  (best_k_ (self w') = best_k_ (self w) \/
   (best_k_ (self w') = Some None /\ e = NoneHasNoFit)).
Proof.
  rewrite fit_eq.
  destruct (candidates (self w) X (k_values (self w)) locals0)
    as [[rec evs] [e0|st]] eqn:E.
  - intros H. inversion H; subst. split; [reflexivity | left; reflexivity].
  - destruct (candidates_best _ _ _ _ _ _ _ E) as (_ & Hsel).
    unfold refit.
    destruct Hsel as [(Hbk & _ & Hbm)|
                      (pre & kb & post & f & _ & _ & _ & _ & Hf & Hbm & _)].
    + rewrite Hbm, Hbk. cbn [locals0 best_model best_k].
      intros H. inversion H; subst.
      split; [reflexivity | right; split; reflexivity].
    + rewrite Hbm. cbn [n_clusters km_random_state]. rewrite Hf. discriminate.
Qed.

(** X4.  [fit] completes only with at least two repetitions, at least one
    candidate, the algorithm "k-means" and one of the metrics "rand" and
    "adjusted_rand". *)
Theorem completed_fit_configuration (X : Dataset) (w w' : world) :
  fit X w = (w', inr tt) ->
  2 <= n_repetitions (self w) /\
  k_values (self w) <> [] /\
  algorithm (self w) = "k-means"%string /\
  (metric (self w) = "rand"%string \/
   metric (self w) = "adjusted_rand"%string).
Proof.
  intros H. pose proof (fit_completed_repetitions _ _ _ H) as Hn.
  destruct (fit_completed _ _ _ H)
    as (rec & pre & kb & post & ab & f & Hsplit & _ & _ & Hkb & _).
  split; [exact Hn|]. split.
  { rewrite Hsplit. intros E. destruct pre; discriminate E. }
  destruct (candidate_score_parts _ _ _ _ Hkb) as (parts & _ & Hlen & Hs).
  unfold candidate_score in Hkb. split.
  - destruct (String.eqb_spec (algorithm (self w)) "k-means") as [E|_];
      [exact E|].
    destruct (Z.leb_spec (n_repetitions (self w)) 0); [lia|].
    discriminate Hkb.
  - unfold partitions_score, selected_metric in Hs.
    destruct (String.eqb_spec (metric (self w)) "rand") as [E|_];
      [left; exact E|].
    destruct (String.eqb_spec (metric (self w)) "adjusted_rand") as [E|_];
      [right; exact E|].
    destruct (unordered_pairs parts) eqn:Eu; [|discriminate Hs].
    apply unordered_pairs_nil in Eu. lia.
Qed.

(** X5.  Let the clustering procedure succeed on every repetition of
    every candidate and give partitions of one common length, and let the
    selected metric score any two partitions of that length with a finite
    value above -1.  Then, with the algorithm "k-means", at least one
    candidate and at least two repetitions, [fit] completes and selects
    one of the candidates. *)
Theorem fit_completes (X : Dataset) (w : world)
    (score : list Z -> list Z -> result pyfloat) (rows : nat) (lo hi : Q) :
  algorithm (self w) = "k-means"%string ->
  selected_metric (metric (self w)) = Some score ->
  (-1 < lo)%Q ->
  (forall a b, List.length a = rows -> List.length b = rows ->
     exists x, score a b = inr x /\ within lo hi x) ->
  k_values (self w) <> [] ->
  2 <= n_repetitions (self w) ->
  (forall k i, In k (k_values (self w)) ->
     0 <= i < n_repetitions (self w) ->
     exists f, kmeans_fit k (random_state (self w) + i) X = inr f /\
               List.length (labels_ f) = rows) ->
  exists w' kb,
    fit X w = (w', inr tt) /\
    best_k_ (self w') = Some (Some kb) /\
    In kb (k_values (self w)).
Proof.
  intros Halg Hmet Hlo Hscore Hks Hn Hfits.
  assert (Hcand : forall k, In k (k_values (self w)) ->
            exists a, candidate_score (self w) X k = inr a /\ within lo hi a).
  { intros k Hk.
    destruct (partitions_all_ok (self w) X k) as (fs & Hfs & Hp).
    { intros i Hi. destruct (Hfits k i Hk Hi) as (f & Hf & _). eauto. }
    assert (Hrows : forall part, In part (map labels_ fs) ->
                                 List.length part = rows).
    { intros part Hin. apply in_map_iff in Hin.
      destruct Hin as (f & <- & Hf).
      pose proof (traverse_Forall2 _ _ _ Hfs) as HF.
      assert (HP : Forall (fun f => List.length (labels_ f) = rows) fs).
      { eapply Forall2_Forall_r_in; [exact HF|].
        intros i f' Hi Hf'. apply In_range in Hi.
        destruct (Hfits k i Hk Hi) as (f'' & Hf'' & Hl).
        unfold repetition_fit in Hf'. rewrite Hf'' in Hf'.
        injection Hf' as <-. exact Hl. }
      rewrite Forall_forall in HP. exact (HP f Hf). }
    assert (Hpair : forall p, In p (unordered_pairs (map labels_ fs)) ->
                      exists x, score (fst p) (snd p) = inr x /\
                                within lo hi x).
    { intros p Hin. destruct (unordered_pairs_In _ _ Hin) as (H1 & H2).
      apply Hscore; apply Hrows; assumption. }
    unfold candidate_score. rewrite Halg, Hp.
    replace (String.eqb "k-means" "k-means") with true
      by (symmetry; apply String.eqb_refl).
    cbn [orb]. unfold partitions_score, mean_agreement, pair_agreements.
    rewrite Hmet.
    destruct (traverse_all_ok (fun p => score (fst p) (snd p))
                (unordered_pairs (map labels_ fs))) as [scores Hsc].
    { intros p Hin. destruct (Hpair p Hin) as (x & Hx & _). eauto. }
    rewrite Hsc. eexists. split; [reflexivity|].
    pose proof (traverse_Forall2 _ _ _ Hsc) as HF.
    apply np_mean_bounds.
    - intros ->. apply Forall2_length in HF.
      assert (Hu : unordered_pairs (map labels_ fs) = [])
        by (destruct (unordered_pairs (map labels_ fs));
            [reflexivity|discriminate HF]).
      apply unordered_pairs_nil in Hu.
      rewrite length_map, (traverse_length _ _ _ Hfs), range_length in Hu.
      lia.
    - eapply Forall2_Forall_r_in; [exact HF|].
      intros p x Hin Hp'. cbn beta in Hp'.
      destruct (Hpair p Hin) as (x' & Hx' & Hw).
      rewrite Hx' in Hp'. inversion Hp'; subst. exact Hw. }
  destruct (candidates_all_ok (self w) X (k_values (self w)) locals0)
    as (rec & st & E).
  { intros k Hk. destruct (Hcand k Hk) as (a & Ha & _). eauto. }
  destruct (candidates_recorded _ _ _ _ _ _ _ E)
    as ((rest & Hrks & Hrest) & Hrec & _).
  rewrite (Hrest st eq_refl), app_nil_r in Hrks.
  destruct (candidates_best _ _ _ _ _ _ _ E) as (Hmax & Hsel).
  destruct Hsel as [(_ & Hbs & _)|
                    (pre & kb & post & f & Hsplit & Hbk & _ & _ & Hf & Hbm & _)].
  - exfalso. destruct rec as [|[k0 a0] rec].
    + cbn in Hrks. congruence.
    + assert (Hk0 : In k0 (k_values (self w))).
      { rewrite Hrks. left. reflexivity. }
      destruct (Hcand k0 Hk0) as (a & Ha & (q & -> & Hq)).
      rewrite (Hrec k0 a0 (or_introl eq_refl)) in Ha. inversion Ha; subst.
      pose proof (Hmax k0 (Fin q) (or_introl eq_refl)) as Hle.
      rewrite Hbs in Hle. cbn [locals0 best_score] in Hle.
      assert (Hgt : pygt (Fin q) (Fin (-1)) = true)
        by (apply pygt_spec; lra).
      congruence.
  - rewrite fit_eq, E. unfold refit. rewrite Hbm, Hbk.
    cbn [n_clusters km_random_state]. rewrite Hf.
    eexists. exists kb. split; [reflexivity|]. split; [reflexivity|].
    rewrite Hsplit. apply in_or_app. right. left. reflexivity.
Qed.

(** X6.  A [fit] that completes has called the clustering procedure once
    per candidate and repetition, and once more for the final refit. *)
Theorem completed_fit_call_count (X : Dataset) (w w' : world) :
  fit X w = (w', inr tt) ->
  List.length (calls w') =
  (List.length (calls w)
   + List.length (k_values (self w)) * Z.to_nat (n_repetitions (self w))
   + 1)%nat.
Proof.
  intros H.
  destruct (fit_completed _ _ _ H)
    as (rec & pre & kb & post & ab & f & _ & _ & _ & _ & _ & _ & _ & _ & _
        & _ & _ & _ & Hcalls).
  rewrite Hcalls, !length_app, repetition_calls_length. cbn [List.length].
  lia.
Qed.


(** X8.  When every score of the selected metric lies between two bounds,
    so does the mean a completed [fit] records for each element of
    [k_values]. *)
Theorem recorded_means_within_metric_range (X : Dataset) (w w' : world)
    (lo hi : Q) :
  fit X w = (w', inr tt) ->
  (forall p x, agreement (self w) p x -> within lo hi x) ->
  forall k, In k (k_values (self w)) ->
    exists a, dict_get k (scores_ (self w')) = Some a /\ within lo hi a.
Proof.
  intros H Hrange k Hk.
  pose proof (fit_completed_repetitions _ _ _ H) as Hn.
  destruct (fit_completed _ _ _ H)
    as (rec & pre & kb & post & ab & f & _ & Hks & Hrec & _ & _ & _ & _ & _
        & _ & Hsc & _).
  rewrite <- Hks in Hk.
  destruct (recorded_score _ _ _ (scores_ (self w)) _ Hrec Hk)
    as (a & Ha & Hd).
  exists a. split; [rewrite Hsc; exact Hd|].
  destruct (candidate_score_parts _ _ _ _ Ha) as (parts & _ & Hlen & Hs).
  destruct (partitions_score_inv _ _ _ Hs) as (scores & HF & ->).
  apply np_mean_bounds.
  - intros ->. apply Forall2_length in HF.
    assert (Hu : unordered_pairs parts = [])
      by (destruct (unordered_pairs parts); [reflexivity|discriminate HF]).
    apply unordered_pairs_nil in Hu. lia.
  - eapply Forall2_Forall_r; [|exact HF]. exact Hrange.
Qed.

End Further.

(** * The mean number of leaves *)

Section NLeaves.

Import Motivation.

Context {SklearnModel Features Targets LeafNode : Type}.

Lemma count_leaves_bounds (lo hi : Z) (l : list (Tree LeafNode)) :
  (forall t, In t l -> lo <= Z.of_nat (List.length (leaf_nodes t)) <= hi) ->
  forall acc,
    acc + lo * Z.of_nat (List.length l)
    <= fold_left (fun n_leaves tree =>
                    n_leaves + Z.of_nat (List.length (leaf_nodes tree))) l acc
    <= acc + hi * Z.of_nat (List.length l).
Proof.
  induction l as [|t l IH]; intros H acc.
  - cbn. lia.
  - cbn [fold_left List.length].
    assert (Ht := H t (or_introl eq_refl)).
    assert (IH' := IH (fun t' Hin => H t' (or_intror Hin))
                      (acc + Z.of_nat (List.length (leaf_nodes t)))).
    nia.
Qed.

Lemma count_leaves_permutation (l l' : list (Tree LeafNode)) :
  Permutation l l' ->
  forall acc,
    fold_left (fun n_leaves tree =>
                 n_leaves + Z.of_nat (List.length (leaf_nodes tree))) l acc =
    fold_left (fun n_leaves tree =>
                 n_leaves + Z.of_nat (List.length (leaf_nodes tree))) l' acc.
Proof.
  induction 1 as [|t l l' _ IH|t t' l|l l' l'' _ IH1 _ IH2]; intros acc.
  - reflexivity.
  - cbn [fold_left]. apply IH.
  - cbn [fold_left]. f_equal. lia.
  - rewrite IH1. apply IH2.
Qed.

(** X9.  [n_leaves_functional] divides by the number of trees: it raises
    ZeroDivisionError exactly on a sample without trees. *)
Theorem n_leaves_division_by_zero (model : SklearnModel)
    (sample : Model LeafNode) (X : Features) (y : Targets) :
  n_leaves_functional model sample X y = ZeroDivisionError <->
  trees sample = [].
Proof.
  unfold n_leaves_functional. split.
  - destruct (trees sample) as [|t l]; [reflexivity|].
    cbn [List.length]. destruct (Z.eqb_spec (Z.of_nat (S (List.length l))) 0);
      [lia | discriminate].
  - intros ->. reflexivity.
Qed.

(** X10.  On a sample with at least one tree, [n_leaves_functional] lies
    between the smallest and the largest number of leaves of a tree: when
    every tree has between [lo] and [hi] leaves, so has the result. *)
Theorem n_leaves_between_extremes (model : SklearnModel)
    (sample : Model LeafNode) (X : Features) (y : Targets) (lo hi : nat) :
  trees sample <> [] ->
  (forall t, In t (trees sample) ->
     (lo <= List.length (leaf_nodes t) <= hi)%nat) ->
  exists q,
    n_leaves_functional model sample X y = Quotient (Fin q) /\
    (inject_Z (Z.of_nat lo) <= q <= inject_Z (Z.of_nat hi))%Q.
Proof.
  intros Hne H. unfold n_leaves_functional, count_leaves.
  set (n := Z.of_nat (List.length (trees sample))).
  assert (Hn : 0 < n).
  { unfold n. destruct (trees sample); [congruence | cbn [List.length]; lia]. }
  destruct (Z.eqb_spec n 0) as [E|_]; [lia|].
  eexists. split; [reflexivity|].
  destruct (count_leaves_bounds (Z.of_nat lo) (Z.of_nat hi) (trees sample))
    with (acc := 0) as (Hlo & Hhi).
  { intros t Ht. specialize (H t Ht). lia. }
  fold n in Hlo, Hhi.
  assert (Hpos : (0 < inject_Z n)%Q).
  { change 0%Q with (inject_Z 0). rewrite <- Zlt_Qlt. exact Hn. }
  split.
  - apply Qle_shift_div_l; [exact Hpos|].
    rewrite <- inject_Z_mult, <- Zle_Qle. lia.
  - apply Qle_shift_div_r; [exact Hpos|].
    rewrite <- inject_Z_mult, <- Zle_Qle. lia.
Qed.

(** X11.  [n_leaves_functional] looks at the trees of the sample only, and
    not at their order: two samples whose trees are the same up to order
    give the same result, whatever the other arguments. *)
Theorem n_leaves_order_irrelevant (model model' : SklearnModel)
    (sample sample' : Model LeafNode) (X X' : Features) (y y' : Targets) :
  Permutation (trees sample) (trees sample') ->
  n_leaves_functional model sample X y =
  n_leaves_functional model' sample' X' y'.
Proof.
  intros HP. unfold n_leaves_functional, count_leaves.
  rewrite (Permutation_length HP), (count_leaves_permutation _ _ HP).
  reflexivity.
Qed.

End NLeaves.

(** * The further properties on the reference instance *)

Lemma ref_fit_labels k seed X f :
  ref_fit k seed X = inr f -> List.length (ref_labels f) = List.length X.
Proof.
  unfold ref_fit. destruct ((k <? 1) || (Z.of_nat (List.length X) <? k));
    [discriminate|].
  intros H. inversion H. cbn. apply length_map.
Qed.

Lemma rand_total a b :
  List.length a = List.length b -> exists x, rand a b = inr x.
Proof.
  intros H. unfold rand. rewrite H, Nat.eqb_refl. cbn [negb].
  destruct ((tp a b + tn a b =? tp a b + tn a b + fn a b + fp a b)
            || (tp a b + tn a b + fn a b + fp a b =? 0)); eauto.
Qed.

(** The Rand index lies between 0 and 1. *)
Lemma rand_range a b x : rand a b = inr x -> within 0 1 x.
Proof.
  unfold rand. destruct (negb (Nat.eqb (List.length a) (List.length b)));
    [discriminate|].
  assert (H1 : 0 <= tp a b) by (unfold tp, count_pairs; lia).
  assert (H2 : 0 <= tn a b) by (unfold tn, count_pairs; lia).
  assert (H3 : 0 <= fn a b) by (unfold fn, count_pairs; lia).
  assert (H4 : 0 <= fp a b) by (unfold fp, count_pairs; lia).
  destruct ((tp a b + tn a b =? tp a b + tn a b + fn a b + fp a b)
            || (tp a b + tn a b + fn a b + fp a b =? 0)) eqn:E;
    intros H; injection H as <-.
  - exists 1%Q. split; [reflexivity | lra].
  - apply orb_false_iff in E. destruct E as [_ Ed]. apply Z.eqb_neq in Ed.
    exists (Qred (inject_Z (tp a b + tn a b)
                  / inject_Z (tp a b + tn a b + fn a b + fp a b))).
    split; [reflexivity|].
    rewrite Qred_correct.
    assert (Hpos : (0 < inject_Z (tp a b + tn a b + fn a b + fp a b))%Q).
    { change 0%Q with (inject_Z 0). rewrite <- Zlt_Qlt. lia. }
    split.
    + apply Qle_shift_div_l; [exact Hpos|].
      rewrite Qmult_0_l. change 0%Q with (inject_Z 0).
      rewrite <- Zle_Qle. lia.
    + apply Qle_shift_div_r; [exact Hpos|].
      rewrite Qmult_1_l, <- Zle_Qle. lia.
Qed.

Lemma fit_without_candidates_witness :
  let w := fresh [] 2 "k-means" "rand" in
  k_values (self w) = [] /\
  exists w',
    fit X6 w = (w', inl NoneHasNoFit) /\
    calls w' = calls w /\
    scores_ (self w') = scores_ (self w) /\
    best_k_ (self w') = Some None /\
    best_model_ (self w') = best_model_ (self w).
Proof.
  intros w. split; [reflexivity|].
  exact (fit_without_candidates (sk := sklearn) X6 w eq_refl).
Defined.

Lemma fit_keeps_parameters_witness :
  let w := fresh [2; 3] 2 "k-means" "rand" in
  fit X6 w = (after_fit X6 w, inr tt) /\
  same_config (self (after_fit X6 w)) (self w) /\
  exists new_calls, calls (after_fit X6 w) = calls w ++ new_calls.
Proof.
  intros w.
  assert (H : fit X6 w = (after_fit X6 w, inr tt))
    by (apply after_fit_outcome; vm_compute; reflexivity).
  split; [exact H|].
  exact (fit_keeps_parameters (sk := sklearn) X6 w _ _ H).
Defined.

Lemma failed_fit_keeps_selected_model_witness :
  let w := with_k_values [7] (after_fit X6 (fresh [2; 3] 2 "k-means" "rand")) in
  fit X6 w =
    (after_fit X6 w, inl (ValueError "n_samples should be >= n_clusters")) /\
  best_model_ (self (after_fit X6 w)) = best_model_ (self w) /\
  (best_k_ (self (after_fit X6 w)) = best_k_ (self w) \/
   (best_k_ (self (after_fit X6 w)) = Some None /\
    ValueError "n_samples should be >= n_clusters" = NoneHasNoFit)).
Proof.
  intros w.
  assert (H : fit X6 w =
              (after_fit X6 w,
               inl (ValueError "n_samples should be >= n_clusters")))
    by (apply after_fit_outcome; vm_compute; reflexivity).
  split; [exact H|].
  exact (failed_fit_keeps_selected_model (sk := sklearn) X6 w _ _ H).
Defined.

Lemma completed_fit_configuration_witness :
  let w := fresh [2; 3] 2 "k-means" "adjusted_rand" in
  fit X6 w = (after_fit X6 w, inr tt) /\
  2 <= n_repetitions (self w) /\
  k_values (self w) <> [] /\
  algorithm (self w) = "k-means"%string /\
  (metric (self w) = "rand"%string \/
   metric (self w) = "adjusted_rand"%string).
Proof.
  intros w.
  assert (H : fit X6 w = (after_fit X6 w, inr tt))
    by (apply after_fit_outcome; vm_compute; reflexivity).
  split; [exact H|].
  exact (completed_fit_configuration (sk := sklearn) X6 w _ H).
Defined.

Lemma fit_completes_witness :
  let w := fresh [2; 3] 2 "k-means" "rand" in
  exists w' kb,
    fit X6 w = (w', inr tt) /\
    best_k_ (self w') = Some (Some kb) /\
    In kb (k_values (self w)).
Proof.
  intros w.
  apply (fit_completes (sk := sklearn) X6 w rand 6 0 1).
  - reflexivity.
  - reflexivity.
  - reflexivity.
  - intros a b Ha Hb. destruct (rand_total a b) as [x Hx]; [congruence|].
    exists x. split; [exact Hx | exact (rand_range _ _ _ Hx)].
  - discriminate.
  - discriminate.
  - intros k i Hk Hi. change (0 <= i < 2) in Hi.
    assert (E : i = 0 \/ i = 1) by lia.
    destruct Hk as [<-|[<-|[]]]; destruct E as [->| ->];
      eexists; split; reflexivity.
Defined.

Lemma completed_fit_call_count_witness :
  let w := fresh [2; 3; 3] 2 "k-means" "rand" in
  fit X6 w = (after_fit X6 w, inr tt) /\
  List.length (calls (after_fit X6 w)) = (0 + 3 * 2 + 1)%nat.
Proof.
  intros w.
  assert (H : fit X6 w = (after_fit X6 w, inr tt))
    by (apply after_fit_outcome; vm_compute; reflexivity).
  split; [exact H|].
  exact (completed_fit_call_count (sk := sklearn) X6 w _ H).
Defined.


Lemma recorded_means_within_metric_range_witness :
  let w := fresh [2; 3] 2 "k-means" "rand" in
  fit X6 w = (after_fit X6 w, inr tt) /\
  forall k, In k (k_values (self w)) ->
    exists a, dict_get k (scores_ (self (after_fit X6 w))) = Some a /\
              within 0 1 a.
Proof.
  intros w.
  assert (H : fit X6 w = (after_fit X6 w, inr tt))
    by (apply after_fit_outcome; vm_compute; reflexivity).
  split; [exact H|].
  apply (recorded_means_within_metric_range (sk := sklearn) X6 w _ 0 1 H).
  intros p x (score & Hsel & Hx).
  injection Hsel as <-. exact (rand_range _ _ _ Hx).
Defined.

Lemma n_leaves_between_extremes_witness :
  let sample :=
    Motivation.mkModel
      [Motivation.mkTree [tt; tt]; Motivation.mkTree [tt; tt; tt]] in
  Motivation.trees sample <> [] /\
  exists q,
    Motivation.n_leaves_functional tt sample tt tt
      = Motivation.Quotient (Fin q) /\
    (inject_Z (Z.of_nat 2) <= q <= inject_Z (Z.of_nat 3))%Q.
Proof.
  intros sample.
  assert (H0 : Motivation.trees sample <> []) by discriminate.
  split; [exact H0|].
  apply (n_leaves_between_extremes tt sample tt tt 2 3 H0).
  intros t [<-|[<-|[]]]; cbn; lia.
Defined.

Lemma n_leaves_order_irrelevant_witness :
  let t2 := Motivation.mkTree [tt; tt] in
  let t3 := Motivation.mkTree [tt; tt; tt] in
  Permutation [t2; t3] [t3; t2] /\
  Motivation.n_leaves_functional tt (Motivation.mkModel [t2; t3]) tt tt =
  Motivation.n_leaves_functional tt (Motivation.mkModel [t3; t2]) tt tt.
Proof.
  intros t2 t3.
  assert (HP : Permutation [t2; t3] [t3; t2]) by apply perm_swap.
  split; [exact HP|].
  exact (n_leaves_order_irrelevant tt tt (Motivation.mkModel [t2; t3])
           (Motivation.mkModel [t3; t2]) tt tt tt tt HP).
Defined.

(** * Candidates are evaluated independently of one another *)

Section Independence.

Context {sk : Sklearn}.

Lemma candidate_score_params s1 s2 X k :
  n_repetitions s1 = n_repetitions s2 ->
  algorithm s1 = algorithm s2 ->
  metric s1 = metric s2 ->
  random_state s1 = random_state s2 ->
  candidate_score s1 X k = candidate_score s2 X k.
Proof.
  intros Hn Ha Hm Hr.
  unfold candidate_score, partitions, partitions_score, repetition_labels,
    repetition_fit.
  rewrite Hn, Ha, Hm, Hr. reflexivity.
Qed.

Lemma candidates_params s1 s2 X ks st :
  n_repetitions s1 = n_repetitions s2 ->
  algorithm s1 = algorithm s2 ->
  metric s1 = metric s2 ->
  random_state s1 = random_state s2 ->
  candidates s1 X ks st = candidates s2 X ks st.
Proof.
  intros Hn Ha Hm Hr. revert st.
  induction ks as [|k ks IH]; intros st; [reflexivity|].
  cbn [candidates].
  rewrite (candidate_score_params s1 s2) by assumption.
  unfold candidate_calls, candidate_model, repetition_fit.
  rewrite Hn, Ha, Hr.
  destruct (candidate_score s2 X k); [reflexivity|].
  rewrite IH. reflexivity.
Qed.

(** X12.  The mean recorded for a candidate depends on the candidate, the
    dataset and the parameters [n_repetitions], [algorithm], [metric] and
    [random_state] only, not on which other candidates are evaluated with
    it or on its place among them. *)
Theorem candidate_mean_independent (X : Dataset) (w1 w2 w1' w2' : world)
    (k : Z) :
  n_repetitions (self w1) = n_repetitions (self w2) ->
  algorithm (self w1) = algorithm (self w2) ->
  metric (self w1) = metric (self w2) ->
  random_state (self w1) = random_state (self w2) ->
  fit X w1 = (w1', inr tt) ->
  fit X w2 = (w2', inr tt) ->
  In k (k_values (self w1)) ->
  In k (k_values (self w2)) ->
  dict_get k (scores_ (self w1')) = dict_get k (scores_ (self w2')).
Proof.
  intros Hn Ha Hm Hr H1 H2 Hk1 Hk2.
  destruct (fit_completed _ _ _ H1)
    as (rec1 & _ & _ & _ & _ & _ & _ & Hks1 & Hrec1 & _ & _ & _ & _ & _ & _
        & Hsc1 & _).
  destruct (fit_completed _ _ _ H2)
    as (rec2 & _ & _ & _ & _ & _ & _ & Hks2 & Hrec2 & _ & _ & _ & _ & _ & _
        & Hsc2 & _).
  rewrite <- Hks1 in Hk1. rewrite <- Hks2 in Hk2.
  destruct (recorded_score _ _ _ (scores_ (self w1)) _ Hrec1 Hk1)
    as (a1 & Ha1 & Hd1).
  destruct (recorded_score _ _ _ (scores_ (self w2)) _ Hrec2 Hk2)
    as (a2 & Ha2 & Hd2).
  rewrite Hsc1, Hsc2, Hd1, Hd2.
  rewrite (candidate_score_params _ (self w2)) in Ha1 by assumption.
  congruence.
Qed.

(** The distinct elements of [k :: ks] that are not in [S]. *)
Lemma first_occurrences_step (S : list Z) k ks :
  filter (fun y => negb (existsb (Z.eqb y) S)) (first_occurrences (k :: ks)) =
  if existsb (Z.eqb k) S
  then filter (fun y => negb (existsb (Z.eqb y) S)) (first_occurrences ks)
  else k :: filter (fun y => negb (existsb (Z.eqb y) (k :: S)))
              (first_occurrences ks).
Proof.
  cbn [first_occurrences filter].
  destruct (existsb (Z.eqb k) S) eqn:Ek; cbn [negb].
  - rewrite filter_twice. apply filter_ext. intros y.
    destruct (existsb (Z.eqb y) S) eqn:Ey; [reflexivity|].
    cbn [negb andb]. apply negb_true_iff, Z.eqb_neq. intros ->. congruence.
  - f_equal. rewrite filter_twice. apply filter_ext. intros y.
    cbn [existsb]. rewrite negb_orb. apply andb_comm.
Qed.

(** Evaluating a candidate again changes neither the table nor the
    running best: the loop over [ks] and the loop over its distinct
    elements end alike. *)
Lemma candidates_distinct s X :
  forall ks S st st' d rec evs st1,
    best_k st = best_k st' ->
    best_score st = best_score st' ->
    best_model st = best_model st' ->
    (forall k, In k S ->
       exists a, candidate_score s X k = inr a /\
                 pygt a (best_score st) = false /\
                 dict_get k d = Some a) ->
    candidates s X ks st = (rec, evs, inr st1) ->
    exists rec' evs' st1',
      candidates s X
        (filter (fun y => negb (existsb (Z.eqb y) S)) (first_occurrences ks))
        st' = (rec', evs', inr st1') /\
      best_k st1 = best_k st1' /\
      best_score st1 = best_score st1' /\
      best_model st1 = best_model st1' /\
      record_all rec d = record_all rec' d.
Proof.
  induction ks as [|k ks IH]; intros S st st' d rec evs st1 Hbk Hbs Hbm Hinv H.
  - cbn in H. inversion H; subst. exists [], [], st'. cbn. repeat split; assumption.
  - cbn [candidates] in H.
    destruct (candidate_score s X k) as [e|a] eqn:Ek; [discriminate|].
    set (st2 := track_best k a (candidate_model s X k (model st)) st) in *.
    destruct (candidates s X ks st2) as [[rec0 evs0] r0] eqn:E.
    inversion H; subst; clear H.
    rewrite first_occurrences_step.
    destruct (existsb (Z.eqb k) S) eqn:ES.
    + apply existsb_exists in ES. destruct ES as (k' & Hk' & Ekk).
      apply Z.eqb_eq in Ekk. subst k'.
      destruct (Hinv k Hk') as (a' & Ha' & Hle & Hd).
      rewrite Ek in Ha'. injection Ha' as <-.
      assert (Hst2 : best_k st2 = best_k st /\ best_score st2 = best_score st
                     /\ best_model st2 = best_model st).
      { unfold st2, track_best. rewrite Hle. repeat split. }
      destruct Hst2 as (H2k & H2s & H2m).
      assert (Hinv2 : forall k0, In k0 S ->
                exists a0, candidate_score s X k0 = inr a0 /\
                           pygt a0 (best_score st2) = false /\
                           dict_get k0 d = Some a0).
      { intros k0 Hk0. destruct (Hinv k0 Hk0) as (a0 & Ha0 & Hle0 & Hd0).
        exists a0. rewrite H2s. repeat split; assumption. }
      destruct (IH S st2 st' d rec0 evs0 st1 (eq_trans H2k Hbk)
                  (eq_trans H2s Hbs) (eq_trans H2m Hbm) Hinv2 E)
        as (rec' & evs' & st1' & HE & Hr).
      exists rec', evs', st1'. split; [exact HE|].
      destruct Hr as (? & ? & ? & Hrec). repeat split; try assumption.
      unfold record_all in *. cbn [fold_left fst snd].
      rewrite (dict_set_same_value _ _ _ Hd). exact Hrec.
    + cbn [candidates]. rewrite Ek.
      set (st2' := track_best k a (candidate_model s X k (model st')) st').
      assert (Hsim : best_k st2 = best_k st2' /\
                     best_score st2 = best_score st2' /\
                     best_model st2 = best_model st2').
      { unfold st2, st2', track_best. rewrite <- Hbs.
        destruct (pygt a (best_score st)) eqn:Eg;
          cbn [best_k best_score best_model]; [|repeat split; assumption].
        destruct (candidate_model_selected _ _ _ _ _ Ek Eg) as (f & _ & Hm).
        rewrite !Hm. repeat split. }
      destruct Hsim as (H2k & H2s & H2m).
      assert (Hinv2 : forall k0, In k0 (k :: S) ->
                exists a0, candidate_score s X k0 = inr a0 /\
                           pygt a0 (best_score st2) = false /\
                           dict_get k0 (dict_set k a d) = Some a0).
      { assert (Hk2 : pygt a (best_score st2) = false).
        { unfold st2, track_best.
          destruct (pygt a (best_score st)) eqn:Eg; cbn [best_score];
            [apply pygt_irrefl | exact Eg]. }
        intros k0 [<-|Hk0].
        - exists a. split; [exact Ek|]. split; [exact Hk2|].
          apply dict_get_set_same.
        - destruct (Hinv k0 Hk0) as (a0 & Ha0 & Hle0 & Hd0).
          exists a0. split; [exact Ha0|]. split.
          + unfold st2, track_best.
            destruct (pygt a (best_score st)) eqn:Eg; cbn [best_score];
              [|exact Hle0].
            destruct (pygt a0 a) eqn:Eg0; [|reflexivity].
            rewrite (pygt_trans _ _ _ Eg0 Eg) in Hle0. discriminate Hle0.
          + rewrite dict_get_set_other; [exact Hd0|].
            intros ->. apply not_true_iff_false in ES. apply ES.
            apply existsb_exists. exists k. split; [exact Hk0|apply Z.eqb_refl]. }
      destruct (IH (k :: S) st2 st2' (dict_set k a d) rec0 evs0 st1 H2k H2s
                  H2m Hinv2 E)
        as (rec' & evs' & st1' & HE & Hr).
      rewrite HE.
      exists ((k, a) :: rec'), (candidate_calls s X k ++ evs'), st1'.
      split; [reflexivity|].
      destruct Hr as (? & ? & ? & Hrec). repeat split; try assumption.
Qed.

(** X13.  Duplicates among the candidates only cost clustering work: when
    [fit] completes, [fit] with the distinct elements of [k_values] (by
    first occurrence) in their place completes as well and leaves the same
    score table, the same [best_k_] and the same [best_model_]. *)
Theorem duplicate_candidates_change_nothing (X : Dataset) (w w1 : world) :
  fit X w = (w1, inr tt) ->
  exists w2,
    fit X {| self := set_k_values (first_occurrences (k_values (self w)))
                       (self w);
             calls := calls w |} = (w2, inr tt) /\
    scores_ (self w2) = scores_ (self w1) /\
    best_k_ (self w2) = best_k_ (self w1) /\
    best_model_ (self w2) = best_model_ (self w1).
Proof.
  rewrite !fit_eq. cbn [self set_k_values k_values].
  rewrite (candidates_params
             (set_k_values (first_occurrences (k_values (self w))) (self w))
             (self w)) by reflexivity.
  destruct (candidates (self w) X (k_values (self w)) locals0)
    as [[rec evs] [e|st]] eqn:E; [discriminate|].
  destruct (candidates_distinct (self w) X (k_values (self w)) [] locals0
              locals0 (scores_ (self w)) rec evs st)
    as (rec' & evs' & st' & HE & Hbk & _ & Hbm & Hrec);
    try reflexivity; try assumption.
  { intros k []. }
  assert (Hid : filter (fun y => negb (existsb (Z.eqb y) []))
                  (first_occurrences (k_values (self w))) =
                first_occurrences (k_values (self w))).
  { apply forallb_filter_id. apply forallb_forall. reflexivity. }
  rewrite Hid in HE. rewrite HE.
  unfold refit. rewrite <- Hbm, <- Hbk.
  destruct (best_model st) as [m|]; [|discriminate].
  destruct (kmeans_fit (n_clusters m) (km_random_state m) X); [discriminate|].
  intros H. inversion H; subst. eexists. split; [reflexivity|].
  cbn. rewrite Hrec. repeat split.
Qed.

End Independence.

Lemma candidate_mean_independent_witness :
  let w1 := fresh [2; 3] 2 "k-means" "rand" in
  let w2 := fresh [1; 3] 2 "k-means" "rand" in
  fit X6 w1 = (after_fit X6 w1, inr tt) /\
  fit X6 w2 = (after_fit X6 w2, inr tt) /\
  In 3 (k_values (self w1)) /\
  In 3 (k_values (self w2)) /\
  dict_get 3 (scores_ (self (after_fit X6 w1))) =
  dict_get 3 (scores_ (self (after_fit X6 w2))).
Proof.
  intros w1 w2.
  assert (H1 : fit X6 w1 = (after_fit X6 w1, inr tt))
    by (apply after_fit_outcome; vm_compute; reflexivity).
  assert (H2 : fit X6 w2 = (after_fit X6 w2, inr tt))
    by (apply after_fit_outcome; vm_compute; reflexivity).
  assert (Hk1 : In 3 (k_values (self w1))) by (right; left; reflexivity).
  assert (Hk2 : In 3 (k_values (self w2))) by (right; left; reflexivity).
  split; [exact H1|]. split; [exact H2|]. split; [exact Hk1|].
  split; [exact Hk2|].
  exact (candidate_mean_independent (sk := sklearn) X6 w1 w2 _ _ 3
           eq_refl eq_refl eq_refl eq_refl H1 H2 Hk1 Hk2).
Defined.

Lemma duplicate_candidates_change_nothing_witness :
  let w := fresh [3; 2; 3] 2 "k-means" "rand" in
  fit X6 w = (after_fit X6 w, inr tt) /\
  exists w2,
    fit X6 {| self := set_k_values (first_occurrences (k_values (self w)))
                        (self w);
              calls := calls w |} = (w2, inr tt) /\
    scores_ (self w2) = scores_ (self (after_fit X6 w)) /\
    best_k_ (self w2) = best_k_ (self (after_fit X6 w)) /\
    best_model_ (self w2) = best_model_ (self (after_fit X6 w)).
Proof.
  intros w.
  assert (H : fit X6 w = (after_fit X6 w, inr tt))
    by (apply after_fit_outcome; vm_compute; reflexivity).
  split; [exact H|].
  exact (duplicate_candidates_change_nothing (sk := sklearn) X6 w _ H).
Defined.
